(** * DockercfgDeletedController: reference repair on dockercfg secret deletion

    A shallow embedding of
    [pkg/serviceaccounts/controllers/deleted_dockercfg_secrets.go].

    The controller talks to the API server through [kclientset.Interface]
    and to the clock through [time.Sleep]/[wait.Jitter].  Those collaborators
    are kept abstract in an [Env] record acting on a world [W]; the Go code
    becomes a computation that threads the world, records every outside call
    with its answer in a chronological trace, and may panic. *)

From stdpp Require Import gmap strings list.
From Stdlib Require Import ZArith.

Open Scope Z_scope.

(** ** API objects (the fields the controller reads or writes) *)

Record ObjectMeta := {
  Name : string;
  Namespace : string;
  UID : string;                       (* types.UID is a string *)
  ResourceVersion : N;                (* opaque optimistic-concurrency token *)
  Annotations : gmap string string;
}.

Record ObjectReference := {
  Ref_Kind : string;
  Ref_Namespace : string;
  Ref_Name : string;
  Ref_UID : string;
  Ref_APIVersion : string;
  Ref_ResourceVersion : string;
  Ref_FieldPath : string;
}.

Record LocalObjectReference := { Local_Name : string }.

Record Secret := {
  Secret_Meta : ObjectMeta;
  Secret_Type : string;
}.

Record ServiceAccount := {
  SA_Meta : ObjectMeta;
  Secrets : list ObjectReference;
  ImagePullSecrets : list LocalObjectReference;
}.

(** What an informer may hand to a delete handler as [interface{}]: the
    object itself, or a tombstone wrapping the last known state. *)
Inductive Object :=
| ObjSecret (s : Secret)
| ObjServiceAccount (sa : ServiceAccount)
| ObjDeletedFinalStateUnknown (key : string) (last : Object).

#[global] Instance ObjectMeta_eq_dec : EqDecision ObjectMeta.
Proof. solve_decision. Defined.
#[global] Instance ObjectReference_eq_dec : EqDecision ObjectReference.
Proof. solve_decision. Defined.
#[global] Instance LocalObjectReference_eq_dec : EqDecision LocalObjectReference.
Proof. solve_decision. Defined.
#[global] Instance Secret_eq_dec : EqDecision Secret.
Proof. solve_decision. Defined.
#[global] Instance ServiceAccount_eq_dec : EqDecision ServiceAccount.
Proof. solve_decision. Defined.

(** Go's [m[k]] on a [map[string]string]: the zero value when [k] is absent. *)
Definition annotation (m : ObjectMeta) (k : string) : string :=
  default "" (Annotations m !! k).

(** ** Errors *)

(** Modelled from the spec: the store's error results.  Section 6 names
    not-found, conflict and other errors; an error made by [fmt.Errorf] is
    none of them. *)
Inductive StatusReason :=
| StatusReasonNotFound
| StatusReasonConflict
| StatusReasonOther (reason : string).

Inductive error :=
| StatusError (reason : StatusReason)
| Errorf (msg : string).               (* a plain error built by fmt.Errorf *)

#[global] Instance StatusReason_eq_dec : EqDecision StatusReason.
Proof. solve_decision. Defined.
#[global] Instance error_eq_dec : EqDecision error.
Proof. solve_decision. Defined.

(** Modelled from the spec: [kapierrors.IsNotFound], true exactly on the
    not-found result of section 6. *)
Definition IsNotFound (err : option error) : bool :=
  match err with
  | Some (StatusError StatusReasonNotFound) => true
  | _ => false
  end.

(** Modelled from the spec: [kapierrors.IsConflict], true exactly on the
    conflict result of section 6. *)
Definition IsConflict (err : option error) : bool :=
  match err with
  | Some (StatusError StatusReasonConflict) => true
  | _ => false
  end.

(** ** Outside calls and the computation type *)

Inductive Event :=
| EvGet (ns name : string) (r : ServiceAccount + error)
| EvUpdate (ns : string) (sa : ServiceAccount) (r : ServiceAccount + error)
| EvDelete (ns name : string) (r : option error)
| EvSleep (d : Z)
| EvGlogError (e : error)
| EvHandleError (e : error).

#[global] Instance Event_eq_dec : EqDecision Event.
Proof. solve_decision. Defined.

(** The collaborators: the typed client for service accounts and secrets,
    [wait.Jitter] and [time.Sleep].  [wait_Jitter d] stands for the call
    [wait.Jitter(d, 0.0)], the only one the controller makes; it draws from
    the global random source, hence the world.  Durations are nanoseconds.
    Other writers may run while the controller sleeps, so [time_Sleep] acts
    on the world too. *)
Record Env (W : Type) := {
  ServiceAccounts_Get : string → string → W → (ServiceAccount + error) * W;
  ServiceAccounts_Update : string → ServiceAccount → W → (ServiceAccount + error) * W;
  Secrets_Delete : string → string → W → option error * W;
  wait_Jitter : Z → W → Z * W;
  time_Sleep : Z → W → W;
}.
Arguments ServiceAccounts_Get {W}.
Arguments ServiceAccounts_Update {W}.
Arguments Secrets_Delete {W}.
Arguments wait_Jitter {W}.
Arguments time_Sleep {W}.

Inductive Outcome (A : Type) :=
| Returned (a : A)
| Panicked (msg : string).
Arguments Returned {A}.
Arguments Panicked {A}.

(** A computation maps the world to an outcome, the world it leaves behind
    and the calls it made, oldest first. *)
Definition M (W A : Type) : Type := W → Outcome A * W * list Event.

Definition ret {W A} (a : A) : M W A := λ w, (Returned a, w, []).

Definition bind {W A B} (m : M W A) (k : A → M W B) : M W B :=
  λ w,
    match m w with
    | (Returned a, w1, t1) =>
        match k a w1 with
        | (o, w2, t2) => (o, w2, t1 ++ t2)
        end
    | (Panicked msg, w1, t1) => (Panicked msg, w1, t1)
    end.

Definition panic {W A} (msg : string) : M W A := λ w, (Panicked msg, w, []).

Definition emit {W} (ev : Event) : M W unit := λ w, (Returned tt, w, [ev]).

#[global] Instance M_ret {W} : MRet (M W) := @ret W.
#[global] Instance M_bind {W} : MBind (M W) := λ A B k m, bind m k.

Definition outcome {W A} (r : Outcome A * W * list Event) : Outcome A := r.1.1.
Definition final {W A} (r : Outcome A * W * list Event) : W := r.1.2.
Definition calls {W A} (r : Outcome A * W * list Event) : list Event := r.2.

(** ** The controller *)

(** NumServiceAccountUpdateRetries controls the number of times we will
    retry on conflict errors. *)
Definition NumServiceAccountUpdateRetries : Z := 10.

(** [time.Millisecond], in nanoseconds. *)
Definition Millisecond : Z := 1000000.

Inductive LoopCtl := Break | Continue.

(** [for i := lo; i <= hi; i++ { body }] where the body does not assign [i]:
    the body runs on lo, lo+1, ... until it breaks or the range is done. *)
Fixpoint forRange {W} (range : list Z) (body : Z → M W LoopCtl) : M W unit :=
  match range with
  | [] => mret tt
  | i :: rest =>
      c ← body i;
      match c with
      | Break => mret tt
      | Continue => forRange rest body
      end
  end.

(** One pass of the filtering loops of removeDockercfgSecretReference:
    [changed] is raised on a match, every other entry is appended. *)
Definition dropRef {R} (name_of : R → string) (name : string)
    (st : bool * list R) (s : R) : bool * list R :=
  if String.eqb (name_of s) name then (true, st.2) else (st.1, st.2 ++ [s]).

Section Controller.
(** Annotation keys declared outside this file: the package's
    ServiceAccountTokenSecretNameKey and the API's ServiceAccountNameKey
    and ServiceAccountUIDKey.  Nothing below depends on their values. *)
Variables (ServiceAccountTokenSecretNameKey
           ServiceAccountNameKey
           ServiceAccountUIDKey : string).

Context {W : Type} (e : Env W).

Definition clientGet (ns name : string) : M W (ServiceAccount + error) :=
  λ w, let '(r, w1) := ServiceAccounts_Get e ns name w in
       (Returned r, w1, [EvGet ns name r]).

Definition clientUpdate (ns : string) (sa : ServiceAccount)
    : M W (ServiceAccount + error) :=
  λ w, let '(r, w1) := ServiceAccounts_Update e ns sa w in
       (Returned r, w1, [EvUpdate ns sa r]).

Definition clientDelete (ns name : string) : M W (option error) :=
  λ w, let '(r, w1) := Secrets_Delete e ns name w in
       (Returned r, w1, [EvDelete ns name r]).

Definition jitter (d : Z) : M W Z :=
  λ w, let '(j, w1) := wait_Jitter e d w in (Returned j, w1, []).

Definition sleep (d : Z) : M W unit :=
  λ w, (Returned tt, time_Sleep e d w, [EvSleep d]).

Definition uidMismatch (secret : Secret) (saUID : string)
    (serviceAccount : ServiceAccount) : error :=
  Errorf ("secret (" +:+ Name (Secret_Meta secret)
          +:+ ") service account UID (" +:+ saUID
          +:+ ") does not match service account ("
          +:+ Name (SA_Meta serviceAccount)
          +:+ ") UID (" +:+ UID (SA_Meta serviceAccount) +:+ ")").

(** getServiceAccount returns the ServiceAccount referenced by the given
    secret; nil, but no error, if the secret doesn't reference one. *)
Definition getServiceAccount (secret : Secret)
    : M W (option ServiceAccount * option error) :=
  let saName := annotation (Secret_Meta secret) ServiceAccountNameKey in
  let saUID := annotation (Secret_Meta secret) ServiceAccountUIDKey in
  if (String.length saName =? 0)%nat || (String.length saUID =? 0)%nat
  then mret (None, None)
  else
    r ← clientGet (Namespace (Secret_Meta secret)) saName;
    match r with
    | inr err => mret (None, Some err)
    | inl serviceAccount =>
        if bool_decide (saUID ≠ UID (SA_Meta serviceAccount))
        then mret (None, Some (uidMismatch secret saUID serviceAccount))
        else mret (Some serviceAccount, None)
    end.

(** removeDockercfgSecretReference updates the given ServiceAccount to
    remove ImagePullSecret and Secret references. *)
Definition removeDockercfgSecretReference (dockercfgSecret : Secret)
    : M W (option error) :=
  '(got, err) ← getServiceAccount dockercfgSecret;
  if IsNotFound err then mret None
  else
    match err with
    | Some err => mret (Some err)
    | None =>
        match got with
        | None => panic "invalid memory address or nil pointer dereference"
        | Some serviceAccount =>
            let name := Name (Secret_Meta dockercfgSecret) in
            let '(changed, secrets) :=
              fold_left (dropRef Ref_Name name)
                        (Secrets serviceAccount) (false, []) in
            let '(changed, imagePullSecrets) :=
              fold_left (dropRef Local_Name name)
                        (ImagePullSecrets serviceAccount) (changed, []) in
            let serviceAccount :=
              {| SA_Meta := SA_Meta serviceAccount;
                 Secrets := secrets;
                 ImagePullSecrets := imagePullSecrets |} in
            if changed
            then
              r ← clientUpdate (Namespace (Secret_Meta dockercfgSecret))
                               serviceAccount;
              match r with
              | inr err => mret (Some err)
              | inl _ => mret None
              end
            else mret None
        end
    end.

(** The body of the retry loop of secretDeleted at counter [i]. *)
Definition retryBody (dockercfgSecret : Secret) (i : Z) : M W LoopCtl :=
  err ← removeDockercfgSecretReference dockercfgSecret;
  match err with
  | Some err' =>
      if IsConflict err && (i <? NumServiceAccountUpdateRetries)
      then
        d ← jitter (100 * Millisecond);
        sleep d;;
        mret Continue
      else
        emit (EvGlogError err');;
        mret Break
  | None => mret Break
  end.

(** secretDeleted reacts to a Secret being deleted: for a service account
    dockercfg secret it removes the references from the service account
    and removes the token created to back the dockercfg secret. *)
Definition secretDeleted (obj : Object) : M W unit :=
  match obj with
  | ObjSecret dockercfgSecret =>
      match Annotations (Secret_Meta dockercfgSecret)
              !! ServiceAccountTokenSecretNameKey with
      | None => mret tt
      | Some _ =>
          forRange (seqZ 1 NumServiceAccountUpdateRetries)
                   (retryBody dockercfgSecret);;
          err ← clientDelete
                  (Namespace (Secret_Meta dockercfgSecret))
                  (annotation (Secret_Meta dockercfgSecret)
                              ServiceAccountTokenSecretNameKey);
          match err with
          | Some err' =>
              if negb (IsNotFound err)
              then emit (EvHandleError err')
              else mret tt
          | None => mret tt
          end
      end
  | _ => mret tt
  end.

End Controller.

(** ** Reference behaviour the loops are compared with *)

(** The service account with every reference named [name] taken out of both
    lists, the other entries in their original order. *)
Definition stripRefs (name : string) (sa : ServiceAccount) : ServiceAccount :=
  {| SA_Meta := SA_Meta sa;
     Secrets := filter (λ r, Ref_Name r ≠ name) (Secrets sa);
     ImagePullSecrets := filter (λ r, Local_Name r ≠ name) (ImagePullSecrets sa) |}.

(** Some entry of either list is named [name]. *)
Definition refersTo (name : string) (sa : ServiceAccount) : Prop :=
  Exists (λ r, Ref_Name r = name) (Secrets sa)
  ∨ Exists (λ r, Local_Name r = name) (ImagePullSecrets sa).

#[global] Instance refersTo_dec name sa : Decision (refersTo name sa).
Proof. unfold refersTo. apply _. Defined.

(** What the handler does with the answer of the final Delete. *)
Definition handled (rd : option error) : list Event :=
  match rd with
  | Some err => if IsNotFound rd then [] else [EvHandleError err]
  | None => []
  end.

Definition conflict : error := StatusError StatusReasonConflict.
Definition notFound : error := StatusError StatusReasonNotFound.

(** The calls of one attempt that fetched [x.1], lost the update to a
    conflict and slept [x.2] before the next attempt. *)
Definition conflictRound (ns saName name : string)
    (x : ServiceAccount * Z) : list Event :=
  [EvGet ns saName (inl x.1);
   EvUpdate ns (stripRefs name x.1) (inr conflict);
   EvSleep x.2].

Definition isUpdate (ev : Event) : bool :=
  match ev with EvUpdate _ _ _ => true | _ => false end.
Definition isGet (ev : Event) : bool :=
  match ev with EvGet _ _ _ => true | _ => false end.
Definition isSleep (ev : Event) : bool :=
  match ev with EvSleep _ => true | _ => false end.
Definition isDelete (ev : Event) : bool :=
  match ev with EvDelete _ _ _ => true | _ => false end.
Definition isHandled (ev : Event) : bool :=
  match ev with EvHandleError _ => true | _ => false end.
Definition isReport (ev : Event) : bool :=
  match ev with EvGlogError _ | EvHandleError _ => true | _ => false end.

Definition countCalls (p : Event → bool) (t : list Event) : nat :=
  length (List.filter p t).

(** What the annotations of a deleted secret say, given the keys. *)
Definition managed (tokenKey : string) (s : Secret) : Prop :=
  is_Some (Annotations (Secret_Meta s) !! tokenKey).
Definition tokenName (tokenKey : string) (s : Secret) : string :=
  annotation (Secret_Meta s) tokenKey.
Definition backrefName (nameKey : string) (s : Secret) : string :=
  annotation (Secret_Meta s) nameKey.
Definition backrefUID (uidKey : string) (s : Secret) : string :=
  annotation (Secret_Meta s) uidKey.
Definition nsOf (s : Secret) : string := Namespace (Secret_Meta s).
Definition nameOf (s : Secret) : string := Name (Secret_Meta s).

(** The calls a single attempt can make: none, one Get, or a Get that
    returned a service account with the recorded UID followed by the Update
    of that account with the references taken out. *)
Inductive attemptCalls (ns saName saUID name : string) : list Event → Prop :=
| attempt_none : attemptCalls ns saName saUID name []
| attempt_get r : attemptCalls ns saName saUID name [EvGet ns saName r]
| attempt_update sa ru :
    UID (SA_Meta sa) = saUID →
    refersTo name sa →
    attemptCalls ns saName saUID name
      [EvGet ns saName (inl sa); EvUpdate ns (stripRefs name sa) ru].

(** ** An in-memory store *)

Module MemStore.

(** Modelled from the spec: the Resource Store Client of section 6, with a
    single writer.  Objects live under (namespace, name); Get answers
    not-found for a missing key; Update is accepted only when it carries
    the version last handed out, and then advances it; Delete answers
    not-found for a missing key.  The stored part of a service account
    leaves out the name and namespace, which are the key. *)
Record Stored := {
  st_UID : string;
  st_Version : N;
  st_Annotations : gmap string string;
  st_Secrets : list ObjectReference;
  st_ImagePullSecrets : list LocalObjectReference;
}.

Record Store := {
  serviceAccounts : gmap (string * string) Stored;
  secrets : gmap (string * string) Secret;
}.

Definition load (ns name : string) (s : Stored) : ServiceAccount :=
  {| SA_Meta := {| Name := name; Namespace := ns; UID := st_UID s;
                   ResourceVersion := st_Version s;
                   Annotations := st_Annotations s |};
     Secrets := st_Secrets s;
     ImagePullSecrets := st_ImagePullSecrets s |}.

Definition save (sa : ServiceAccount) (version : N) : Stored :=
  {| st_UID := UID (SA_Meta sa);
     st_Version := version;
     st_Annotations := Annotations (SA_Meta sa);
     st_Secrets := Secrets sa;
     st_ImagePullSecrets := ImagePullSecrets sa |}.

(** Modelled from the spec: [Get(namespace, name) -> Object | NotFoundError]. *)
Definition Get (ns name : string) (st : Store)
    : (ServiceAccount + error) * Store :=
  match serviceAccounts st !! (ns, name) with
  | Some s => (inl (load ns name s), st)
  | None => (inr notFound, st)
  end.

(** Modelled from the spec: [Update(Object) -> Object | ConflictError |
    OtherError]; the store rejects a stale version with a conflict. *)
Definition Update (ns : string) (sa : ServiceAccount) (st : Store)
    : (ServiceAccount + error) * Store :=
  let name := Name (SA_Meta sa) in
  match serviceAccounts st !! (ns, name) with
  | None => (inr notFound, st)
  | Some cur =>
      if bool_decide (st_Version cur = ResourceVersion (SA_Meta sa))
      then
        let s := save sa (st_Version cur + 1)%N in
        (inl (load ns name s),
         {| serviceAccounts := <[(ns, name) := s]> (serviceAccounts st);
            secrets := secrets st |})
      else (inr conflict, st)
  end.

(** Modelled from the spec: [Delete(namespace, name) -> void |
    NotFoundError | OtherError]. *)
Definition Delete (ns name : string) (st : Store) : option error * Store :=
  match secrets st !! (ns, name) with
  | Some _ =>
      (None, {| serviceAccounts := serviceAccounts st;
                secrets := delete (ns, name) (secrets st) |})
  | None => (Some notFound, st)
  end.

(** The store as an environment of the controller; the jitter is the base
    duration and sleeping changes nothing. *)
Definition env : Env Store :=
  {| ServiceAccounts_Get := Get;
     ServiceAccounts_Update := Update;
     Secrets_Delete := Delete;
     wait_Jitter := λ d st, (d, st);
     time_Sleep := λ _ st, st |}.

(** The same store with a second writer that touches the service account
    right after every Get, so that the version a reader holds is stale by
    the time it writes. *)
Definition touch (ns name : string) (st : Store) : Store :=
  {| serviceAccounts :=
       alter (λ s, save (load ns name s) (st_Version s + 1)%N)
             (ns, name) (serviceAccounts st);
     secrets := secrets st |}.

Definition contended : Env Store :=
  {| ServiceAccounts_Get := λ ns name st,
       let '(r, st1) := Get ns name st in (r, touch ns name st1);
     ServiceAccounts_Update := Update;
     Secrets_Delete := Delete;
     wait_Jitter := λ d st, (d, st);
     time_Sleep := λ _ st, st |}.

End MemStore.

(** ** The scenario of the specification *)

Module Scenario.
Import MemStore.

Definition tokenKey : string := "derivedResourceName".
Definition nameKey : string := "backrefName".
Definition uidKey : string := "backrefUID".

Definition ref (name : string) : ObjectReference :=
  {| Ref_Kind := ""; Ref_Namespace := ""; Ref_Name := name; Ref_UID := "";
     Ref_APIVersion := ""; Ref_ResourceVersion := ""; Ref_FieldPath := "" |}.

Definition pull (name : string) : LocalObjectReference :=
  {| Local_Name := name |}.

Definition secret (name : string) (ann : gmap string string) : Secret :=
  {| Secret_Meta := {| Name := name; Namespace := "ns"; UID := "";
                       ResourceVersion := 0%N; Annotations := ann |};
     Secret_Type := "kubernetes.io/dockercfg" |}.

(** d1, created for sa1 (UID u1) together with the token tok1. *)
Definition d1 : Secret :=
  secret "d1" (<[nameKey := "sa1"]>
               (<[uidKey := "u1"]> (<[tokenKey := "tok1"]> ∅))).

(** A managed secret that records no service account. *)
Definition orphan : Secret :=
  secret "d1" (<[tokenKey := "tok1"]> ∅).

(** A secret that is not managed by this controller. *)
Definition foreign : Secret :=
  secret "d1" (<[nameKey := "sa1"]> (<[uidKey := "u1"]> ∅)).

Definition tok1 : Secret :=
  secret "tok1" ∅.

Definition sa1 (uid : string) : Stored :=
  {| st_UID := uid; st_Version := 7%N; st_Annotations := ∅;
     st_Secrets := [ref "d1"; ref "d2"];
     st_ImagePullSecrets := [pull "d1"] |}.

(** sa1 is live with UID u1. *)
Definition store : Store :=
  {| serviceAccounts := <[("ns", "sa1") := sa1 "u1"]> ∅;
     secrets := <[("ns", "tok1") := tok1]> ∅ |}.

(** sa1 was deleted and created again: same name, UID u2. *)
Definition recreated : Store :=
  {| serviceAccounts := <[("ns", "sa1") := sa1 "u2"]> ∅;
     secrets := <[("ns", "tok1") := tok1]> ∅ |}.

(** sa1 is gone, and so is the token. *)
Definition emptied : Store :=
  {| serviceAccounts := ∅; secrets := ∅ |}.

Definition run (e : Env Store) (obj : Object) (st : Store) :=
  secretDeleted tokenKey nameKey uidKey e obj st.

End Scenario.


(** ** Finer shapes of the calls of an attempt and of the retry loop *)

Definition isLogged (ev : Event) : bool :=
  match ev with EvGlogError _ => true | _ => false end.

(** A Get or an Update that was answered with a conflict. *)
Definition answersConflict (ev : Event) : bool :=
  match ev with
  | EvGet _ _ (inr err) | EvUpdate _ _ (inr err) => IsConflict (Some err)
  | _ => false
  end.

(** The events after which no further attempt is made: a logged error, an
    Update that went through, a Get answered with not-found. *)
Definition endsRepair (ev : Event) : bool :=
  match ev with
  | EvGlogError _ => true
  | EvUpdate _ _ (inl _) => true
  | EvGet _ _ (inr err) => IsNotFound (Some err)
  | _ => false
  end.

(** The time slept, summed over the calls. *)
Definition sleptFor (t : list Event) : Z :=
  foldr (λ ev acc, match ev with EvSleep d => d + acc | _ => acc end) 0 t.

(** The calls of an attempt that returned nil: the account is gone, or it
    holds no reference, or the Update went through. *)
Inductive quietAttempt (s : Secret) (saName saUID : string)
    : list Event → Prop :=
| quiet_gone :
    quietAttempt s saName saUID [EvGet (nsOf s) saName (inr notFound)]
| quiet_clean sa :
    UID (SA_Meta sa) = saUID →
    ¬ refersTo (nameOf s) sa →
    quietAttempt s saName saUID [EvGet (nsOf s) saName (inl sa)]
| quiet_updated sa ok :
    UID (SA_Meta sa) = saUID →
    refersTo (nameOf s) sa →
    quietAttempt s saName saUID
      [EvGet (nsOf s) saName (inl sa);
       EvUpdate (nsOf s) (stripRefs (nameOf s) sa) (inl ok)].

(** The calls of an attempt that returned the error [err]: the Get failed
    with something else than not-found, or the UID differs, or the Update
    failed. *)
Inductive failedAttempt (s : Secret) (saName saUID : string)
    : error → list Event → Prop :=
| failed_get err :
    IsNotFound (Some err) = false →
    failedAttempt s saName saUID err [EvGet (nsOf s) saName (inr err)]
| failed_uid sa :
    UID (SA_Meta sa) ≠ saUID →
    failedAttempt s saName saUID (uidMismatch s saUID sa)
      [EvGet (nsOf s) saName (inl sa)]
| failed_update sa err :
    UID (SA_Meta sa) = saUID →
    refersTo (nameOf s) sa →
    failedAttempt s saName saUID err
      [EvGet (nsOf s) saName (inl sa);
       EvUpdate (nsOf s) (stripRefs (nameOf s) sa) (inr err)].

(** The calls of the retry loop over the counters [range], where [J] holds
    of every duration slept: the loop ends on a quiet attempt, on a logged
    failure, on a panic of the attempt, or when the counters run out; it
    goes on, after a sleep, past a conflict met below the ceiling. *)
Inductive loopCalls (s : Secret) (saName saUID : string) (J : Z → Prop)
    : list Z → list Event → Prop :=
| loop_exhausted : loopCalls s saName saUID J [] []
| loop_panic i rest :
    saName = "" ∨ saUID = "" →
    loopCalls s saName saUID J (i :: rest) []
| loop_quiet i rest t :
    quietAttempt s saName saUID t →
    loopCalls s saName saUID J (i :: rest) t
| loop_logged i rest t err :
    failedAttempt s saName saUID err t →
    IsConflict (Some err) && (i <? NumServiceAccountUpdateRetries) = false →
    loopCalls s saName saUID J (i :: rest) (t ++ [EvGlogError err])
| loop_retry i rest t err d t' :
    failedAttempt s saName saUID err t →
    IsConflict (Some err) = true →
    i < NumServiceAccountUpdateRetries →
    J d →
    loopCalls s saName saUID J rest t' →
    loopCalls s saName saUID J (i :: rest) (t ++ EvSleep d :: t').

(** In a call sequence, every event selected by [isB] comes right after an
    event accepted by [okA]. *)
Definition precededBy (isB okA : Event → bool) (t : list Event) : Prop :=
  ∀ i b, t !! i = Some b → isB b = true →
    ∃ j a, i = S j ∧ t !! j = Some a ∧ okA a = true.

(** ** The life cycle of the controller *)

(** Channels are numbered in the order they are made; [loops] lists the
    stop channels handed to [secretController.Run] by the [go] statement of
    Run, oldest first.  [stopChan] is the field of the controller, [None]
    for nil.  The fields [client] and [secretController] never change after
    construction and are left out.  Run and Stop take no lock: what follows
    is about calls made one after the other. *)
Inductive ChanState := ChanOpen | ChanClosed.

#[global] Instance ChanState_eq_dec : EqDecision ChanState.
Proof. solve_decision. Defined.

Record Process := {
  stopChan : option nat;
  chans : list ChanState;
  loops : list nat;
}.

(** [make(chan struct{})]. *)
Definition make_chan : M Process nat :=
  λ p, (Returned (length (chans p)),
        {| stopChan := stopChan p;
           chans := chans p ++ [ChanOpen];
           loops := loops p |}, []).

(** [close(c)]: closing a closed channel panics. *)
Definition close_chan (c : nat) : M Process unit :=
  λ p, match chans p !! c with
       | Some ChanOpen =>
           (Returned tt,
            {| stopChan := stopChan p;
               chans := <[c := ChanClosed]> (chans p);
               loops := loops p |}, [])
       | Some ChanClosed => (Panicked "close of closed channel", p, [])
       | None => (Panicked "close of nil channel", p, [])
       end.

(** [go e.secretController.Run(c)]. *)
Definition go_secretController_Run (c : nat) : M Process unit :=
  λ p, (Returned tt,
        {| stopChan := stopChan p; chans := chans p; loops := loops p ++ [c] |},
        []).

(** [e.stopChan = c]. *)
Definition set_stopChan (c : option nat) : M Process unit :=
  λ p, (Returned tt,
        {| stopChan := c; chans := chans p; loops := loops p |}, []).

(** The controller as NewDockercfgDeletedController returns it: no stop
    channel yet, no loop started. *)
Definition NewDockercfgDeletedController : Process :=
  {| stopChan := None; chans := []; loops := [] |}.

Definition get_stopChan : M Process (option nat) :=
  λ p, (Returned (stopChan p), p, []).

(** Runs controller loops and returns immediately. *)
Definition Run : M Process unit :=
  ch ← get_stopChan;
  match ch with
  | None =>
      c ← make_chan;
      set_stopChan (Some c);;
      go_secretController_Run c
  | Some _ => mret tt
  end.

(** Stop gracefully shuts down this controller. *)
Definition Stop : M Process unit :=
  ch ← get_stopChan;
  match ch with
  | Some c =>
      close_chan c;;
      set_stopChan None
  | None => mret tt
  end.

Inductive LifeCall := CallRun | CallStop.

(** A sequence of calls of Run and Stop, one after the other. *)
Fixpoint drive (cs : list LifeCall) : M Process unit :=
  match cs with
  | [] => mret tt
  | CallRun :: rest => Run;; drive rest
  | CallStop :: rest => Stop;; drive rest
  end.

(** The informer loops whose stop channel is still open. *)
Definition live (p : Process) : list nat :=
  filter (λ c, chans p !! c = Some ChanOpen) (loops p).

(** What Run and Stop keep: the only loop whose channel is still open is
    the one of the current stop channel, no channel was handed to two
    loops, and every loop's channel has been made. *)
Definition steady (p : Process) : Prop :=
  live p = match stopChan p with Some c => [c] | None => [] end
  ∧ NoDup (loops p)
  ∧ Forall (λ c, c < length (chans p))%nat (loops p).

(** A call that stays in the namespace of the secret [s] and on the objects
    its annotations name: the Get of [saName], an Update of an account with
    UID [saUID], the Delete of [tok]. *)
Definition confined (s : Secret) (saName saUID tok : string) (ev : Event)
    : Prop :=
  match ev with
  | EvGet ns name _ => ns = nsOf s ∧ name = saName
  | EvUpdate ns sa _ => ns = nsOf s ∧ UID (SA_Meta sa) = saUID
  | EvDelete ns name _ => ns = nsOf s ∧ name = tok
  | _ => True
  end.

(** An answer of the store in a run in which the account stays as it was
    and another writer wins every time: a Get shows an account with UID
    [saUID] that references the secret [s], an Update loses to a
    conflict. *)
Definition contested (s : Secret) (saUID : string) (ev : Event) : Prop :=
  match ev with
  | EvGet _ _ (inl sa) => UID (SA_Meta sa) = saUID ∧ refersTo (nameOf s) sa
  | EvGet _ _ (inr _) => False
  | EvUpdate _ _ r => r = inr conflict
  | _ => True
  end.

#[global] Instance contested_dec s saUID ev : Decision (contested s saUID ev).
Proof. destruct ev as [? ? [?|?]| | | | |]; simpl; apply _. Defined.


(** ** Stores with canned answers *)

Module Faults.

(** A store that gives the same answers whatever it is asked; its state
    counts the calls it has answered. *)
Definition canned (getAns updAns : ServiceAccount + error)
    (delAns : option error) : Env nat :=
  {| ServiceAccounts_Get := λ _ _ n, (getAns, S n);
     ServiceAccounts_Update := λ _ _ n, (updAns, S n);
     Secrets_Delete := λ _ _ n, (delAns, S n);
     wait_Jitter := λ d n, (d, n);
     time_Sleep := λ _ n, n |}.

Definition forbidden : error := StatusError (StatusReasonOther "Forbidden").

(** sa1 as the scenario has it, under UID u1. *)
Definition account : ServiceAccount :=
  MemStore.load "ns" "sa1" (Scenario.sa1 "u1").

(** A store on which the account is there for the first Get and gone
    afterwards, and on which every Update loses to a conflict. *)
Definition vanishing : Env nat :=
  {| ServiceAccounts_Get := λ _ _ n,
       (match n with O => inl account | S _ => inr notFound end, S n);
     ServiceAccounts_Update := λ _ _ n, (inr conflict, S n);
     Secrets_Delete := λ _ _ n, (None, S n);
     wait_Jitter := λ d n, (d, n);
     time_Sleep := λ _ n, n |}.

End Faults.

(** ** Proof steps used throughout *)

(** Unfold the plumbing of the computation type. *)
Ltac unfold_M :=
  unfold mbind, M_bind, bind, mret, M_ret, ret, emit, panic in *.

(** Split a membership in a short explicit call sequence into its cases. *)
Ltac in_calls H :=
  repeat first [rewrite elem_of_cons in H
               | rewrite elem_of_app in H
               | rewrite elem_of_nil in H].

(** Side conditions on the annotations of a concrete secret. *)
Ltac present := vm_compute; by eexists.
Ltac nonempty := vm_compute; discriminate.

(** * Properties *)

(** ** The computation type *)

Lemma length_zero_empty (s : string) :
  (String.length s =? 0)%nat = true ↔ s = "".
Proof.
  destruct s; simpl; split; intros H; try done.
Qed.

(** ** The filtering loops *)

Lemma fold_dropRef {R} (name_of : R → string) (name : string) (l : list R) :
  ∀ changed acc,
    fold_left (dropRef name_of name) l (changed, acc)
    = (changed || bool_decide (Exists (λ r, name_of r = name) l),
       acc ++ filter (λ r, name_of r ≠ name) l).
Proof.
  induction l as [|x l IH]; intros changed acc; simpl.
  - rewrite app_nil_r. f_equal. by destruct changed.
  - unfold dropRef at 2. simpl.
    destruct (String.eqb_spec (name_of x) name) as [Heq|Hne].
    + rewrite IH. rewrite filter_cons_False by (intros H; by apply H).
      f_equal. rewrite (bool_decide_eq_true_2 (Exists _ (x :: l))).
      * by rewrite orb_true_r.
      * by apply Exists_cons_hd.
    + rewrite IH. rewrite filter_cons_True by done.
      rewrite <- app_assoc. simpl. f_equal. f_equal.
      apply bool_decide_ext. rewrite Exists_cons.
      split; [by right | by intros [?|?]].
Qed.

Lemma filter_keeps_none {R} (name_of : R → string) (name : string) (l : list R) :
  ¬ Exists (λ r, name_of r = name) (filter (λ r, name_of r ≠ name) l).
Proof.
  rewrite Exists_exists. intros (r & Hin & Heq).
  apply list_elem_of_filter in Hin as [Hne _]. done.
Qed.

Lemma stripRefs_clean (name : string) (sa : ServiceAccount) :
  ¬ refersTo name (stripRefs name sa).
Proof.
  intros [H|H]; simpl in H; by apply filter_keeps_none in H.
Qed.

Lemma filter_none_id {R} (name_of : R → string) (name : string) (l : list R) :
  ¬ Exists (λ r, name_of r = name) l →
  filter (λ r, name_of r ≠ name) l = l.
Proof.
  induction l as [|x l IH]; intros H; [done|].
  rewrite Exists_cons in H.
  rewrite filter_cons_True by naive_solver.
  f_equal. apply IH. naive_solver.
Qed.

Lemma stripRefs_id (name : string) (sa : ServiceAccount) :
  ¬ refersTo name sa → stripRefs name sa = sa.
Proof.
  intros H. destruct sa as [m ss ps]. unfold stripRefs, refersTo in *. simpl in *.
  f_equal; apply filter_none_id; naive_solver.
Qed.

(** ** One attempt *)

Section Properties.
Variables (ServiceAccountTokenSecretNameKey
           ServiceAccountNameKey
           ServiceAccountUIDKey : string).
Context {W : Type} (e : Env W).

Abbreviation getSA := (getServiceAccount ServiceAccountNameKey ServiceAccountUIDKey e).
Abbreviation remove :=
  (removeDockercfgSecretReference ServiceAccountNameKey ServiceAccountUIDKey e).
Abbreviation body := (retryBody ServiceAccountNameKey ServiceAccountUIDKey e).
Abbreviation deleted :=
  (secretDeleted ServiceAccountTokenSecretNameKey ServiceAccountNameKey
                 ServiceAccountUIDKey e).
Abbreviation saName s := (backrefName ServiceAccountNameKey s).
Abbreviation saUID s := (backrefUID ServiceAccountUIDKey s).
Abbreviation token s := (tokenName ServiceAccountTokenSecretNameKey s).

Lemma backref_test (s : Secret) :
  saName s ≠ "" → saUID s ≠ "" →
  (String.length (annotation (Secret_Meta s) ServiceAccountNameKey) =? 0)%nat
  || (String.length (annotation (Secret_Meta s) ServiceAccountUIDKey) =? 0)%nat
  = false.
Proof.
  intros Hn Hu. apply orb_false_intro; apply not_true_is_false;
    rewrite length_zero_empty; done.
Qed.

Lemma getSA_no_backref (s : Secret) (w : W) :
  saName s = "" ∨ saUID s = "" →
  getSA s w = (Returned (None, None), w, []).
Proof.
  intros H. unfold getServiceAccount.
  replace (_ || _) with true; [done|].
  symmetry. apply orb_true_iff.
  destruct H as [H|H]; [left|right]; by apply length_zero_empty.
Qed.

Lemma getSA_error (s : Secret) (w w1 : W) (err : error) :
  saName s ≠ "" → saUID s ≠ "" →
  ServiceAccounts_Get e (nsOf s) (saName s) w = (inr err, w1) →
  getSA s w = (Returned (None, Some err), w1, [EvGet (nsOf s) (saName s) (inr err)]).
Proof.
  intros Hn Hu Hg. unfold getServiceAccount. rewrite backref_test by done.
  unfold_M. unfold clientGet. unfold nsOf, backrefName in Hg. by rewrite Hg.
Qed.

Lemma getSA_mismatch (s : Secret) (w w1 : W) (sa : ServiceAccount) :
  saName s ≠ "" → saUID s ≠ "" →
  ServiceAccounts_Get e (nsOf s) (saName s) w = (inl sa, w1) →
  UID (SA_Meta sa) ≠ saUID s →
  getSA s w = (Returned (None, Some (uidMismatch s (saUID s) sa)), w1,
               [EvGet (nsOf s) (saName s) (inl sa)]).
Proof.
  intros Hn Hu Hg Hne. unfold getServiceAccount. rewrite backref_test by done.
  unfold_M. unfold clientGet. unfold nsOf, backrefName in Hg. rewrite Hg.
  rewrite bool_decide_eq_true_2; [done|].
  intros Heq. apply Hne. by rewrite <- Heq.
Qed.

Lemma getSA_match (s : Secret) (w w1 : W) (sa : ServiceAccount) :
  saName s ≠ "" → saUID s ≠ "" →
  ServiceAccounts_Get e (nsOf s) (saName s) w = (inl sa, w1) →
  UID (SA_Meta sa) = saUID s →
  getSA s w = (Returned (Some sa, None), w1, [EvGet (nsOf s) (saName s) (inl sa)]).
Proof.
  intros Hn Hu Hg Heq. unfold getServiceAccount. rewrite backref_test by done.
  unfold_M. unfold clientGet. unfold nsOf, backrefName in Hg. rewrite Hg.
  rewrite bool_decide_eq_false_2; [done|].
  intros Hne. apply Hne. by rewrite Heq.
Qed.

(** A secret without a usable back-reference makes the attempt dereference
    the nil service account. *)
Lemma remove_no_backref (s : Secret) (w : W) :
  saName s = "" ∨ saUID s = "" →
  remove s w
  = (Panicked "invalid memory address or nil pointer dereference", w, []).
Proof.
  intros H. unfold removeDockercfgSecretReference. unfold_M.
  by rewrite getSA_no_backref.
Qed.

Lemma remove_get_error (s : Secret) (w w1 : W) (err : error) :
  saName s ≠ "" → saUID s ≠ "" →
  ServiceAccounts_Get e (nsOf s) (saName s) w = (inr err, w1) →
  remove s w
  = (Returned (if IsNotFound (Some err) then None else Some err), w1,
     [EvGet (nsOf s) (saName s) (inr err)]).
Proof.
  intros Hn Hu Hg. unfold removeDockercfgSecretReference. unfold_M.
  rewrite (getSA_error s w w1 err) by done.
  destruct (IsNotFound (Some err)); by rewrite ?app_nil_r.
Qed.

Lemma remove_mismatch (s : Secret) (w w1 : W) (sa : ServiceAccount) :
  saName s ≠ "" → saUID s ≠ "" →
  ServiceAccounts_Get e (nsOf s) (saName s) w = (inl sa, w1) →
  UID (SA_Meta sa) ≠ saUID s →
  remove s w
  = (Returned (Some (uidMismatch s (saUID s) sa)), w1,
     [EvGet (nsOf s) (saName s) (inl sa)]).
Proof.
  intros Hn Hu Hg Hne. unfold removeDockercfgSecretReference. unfold_M.
  by rewrite (getSA_mismatch s w w1 sa).
Qed.

(** With a matching UID the attempt is decided by [refersTo]: the Update
    carries [stripRefs], and there is none when nothing is referenced. *)
Lemma remove_match (s : Secret) (w w1 : W) (sa : ServiceAccount) :
  saName s ≠ "" → saUID s ≠ "" →
  ServiceAccounts_Get e (nsOf s) (saName s) w = (inl sa, w1) →
  UID (SA_Meta sa) = saUID s →
  remove s w
  = if decide (refersTo (nameOf s) sa)
    then
      let '(ru, w2) :=
        ServiceAccounts_Update e (nsOf s) (stripRefs (nameOf s) sa) w1 in
      (Returned (match ru with inr err => Some err | inl _ => None end), w2,
       [EvGet (nsOf s) (saName s) (inl sa);
        EvUpdate (nsOf s) (stripRefs (nameOf s) sa) ru])
    else (Returned None, w1, [EvGet (nsOf s) (saName s) (inl sa)]).
Proof.
  intros Hn Hu Hg Heq. unfold removeDockercfgSecretReference. unfold_M.
  rewrite (getSA_match s w w1 sa) by done.
  rewrite fold_dropRef. rewrite fold_dropRef. cbn [IsNotFound app].
  fold (stripRefs (Name (Secret_Meta s)) sa). unfold nameOf.
  destruct (decide (refersTo _ sa)) as [Hr|Hr].
  - replace (_ || _) with true.
    + unfold clientUpdate, nsOf.
      destruct (ServiceAccounts_Update e _ _ w1) as [[ok|err] w2]; done.
    + symmetry. unfold refersTo in Hr. cbn [orb]. rewrite orb_true_iff.
      rewrite !bool_decide_eq_true. tauto.
  - replace (_ || _) with false; [done|].
    symmetry. unfold refersTo in Hr. cbn [orb]. apply orb_false_intro.
    + apply bool_decide_eq_false. tauto.
    + apply bool_decide_eq_false. tauto.
Qed.

(** Whatever the store answers, one attempt makes one of the three call
    sequences of [attemptCalls]. *)
Lemma remove_shape (s : Secret) (w : W) :
  attemptCalls (nsOf s) (saName s) (saUID s) (nameOf s) (calls (remove s w)).
Proof.
  destruct (decide (saName s = "")) as [Hn|Hn];
    [rewrite remove_no_backref by auto; constructor|].
  destruct (decide (saUID s = "")) as [Hu|Hu];
    [rewrite remove_no_backref by auto; constructor|].
  destruct (ServiceAccounts_Get e (nsOf s) (saName s) w) as [[sa|err] w1] eqn:Hg.
  - destruct (decide (UID (SA_Meta sa) = saUID s)) as [Heq|Hne].
    + rewrite (remove_match s w w1 sa) by done.
      destruct (decide (refersTo _ sa)) as [Hr|Hr]; [|constructor].
      destruct (ServiceAccounts_Update e _ _ w1) as [ru w2].
      by constructor.
    + rewrite (remove_mismatch s w w1 sa) by done. constructor.
  - rewrite (remove_get_error s w w1 err) by done. constructor.
Qed.

Lemma remove_returns (s : Secret) (w : W) :
  saName s ≠ "" → saUID s ≠ "" →
  ∃ err, outcome (remove s w) = Returned err.
Proof.
  intros Hn Hu.
  destruct (ServiceAccounts_Get e (nsOf s) (saName s) w) as [[sa|err] w1] eqn:Hg.
  - destruct (decide (UID (SA_Meta sa) = saUID s)) as [Heq|Hne].
    + rewrite (remove_match s w w1 sa) by done.
      destruct (decide (refersTo _ sa)) as [Hr|Hr]; [|by eexists].
      destruct (ServiceAccounts_Update e _ _ w1) as [ru w2]. by eexists.
    + rewrite (remove_mismatch s w w1 sa) by done. by eexists.
  - rewrite (remove_get_error s w w1 err) by done. by eexists.
Qed.

(** ** One turn of the retry loop *)

Lemma body_done (s : Secret) (i : Z) (w w1 : W) (t : list Event) :
  remove s w = (Returned None, w1, t) →
  body s i w = (Returned Break, w1, t).
Proof.
  intros H. unfold retryBody. unfold_M. rewrite H. by rewrite app_nil_r.
Qed.

Lemma body_report (s : Secret) (i : Z) (w w1 : W) (t : list Event) (err : error) :
  remove s w = (Returned (Some err), w1, t) →
  IsConflict (Some err) && (i <? NumServiceAccountUpdateRetries) = false →
  body s i w = (Returned Break, w1, t ++ [EvGlogError err]).
Proof.
  intros H Hc. unfold retryBody. unfold_M. rewrite H, Hc. done.
Qed.

Lemma body_retry (s : Secret) (i : Z) (w w1 : W) (t : list Event) (err : error) :
  remove s w = (Returned (Some err), w1, t) →
  IsConflict (Some err) && (i <? NumServiceAccountUpdateRetries) = true →
  body s i w
  = (Returned Continue,
     time_Sleep e (wait_Jitter e (100 * Millisecond) w1).1
                  (wait_Jitter e (100 * Millisecond) w1).2,
     t ++ [EvSleep (wait_Jitter e (100 * Millisecond) w1).1]).
Proof.
  intros H Hc. unfold retryBody. unfold_M. rewrite H, Hc.
  unfold jitter, sleep.
  destruct (wait_Jitter e (100 * Millisecond) w1) as [d w2]. done.
Qed.

Lemma body_panic (s : Secret) (i : Z) (w w1 : W) (t : list Event) (msg : string) :
  remove s w = (Panicked msg, w1, t) →
  body s i w = (Panicked msg, w1, t).
Proof.
  intros H. unfold retryBody. unfold_M. by rewrite H.
Qed.

Lemma body_returns (s : Secret) (i : Z) (w : W) :
  saName s ≠ "" → saUID s ≠ "" →
  ∃ c, outcome (body s i w) = Returned c.
Proof.
  intros Hn Hu. destruct (remove_returns s w Hn Hu) as [err Herr].
  destruct (remove s w) as [[o w1] t] eqn:Hr. unfold outcome in Herr. simpl in Herr. subst o.
  destruct err as [err|].
  - destruct (IsConflict (Some err) && (i <? NumServiceAccountUpdateRetries))
      eqn:Hc.
    + rewrite (body_retry s i w w1 t err) by done. by eexists.
    + rewrite (body_report s i w w1 t err) by done. by eexists.
  - rewrite (body_done s i w w1 t) by done. by eexists.
Qed.

(** The calls of a turn are those of an attempt, possibly followed by a
    sleep or by a logged error. *)
Lemma body_calls (P : list Event → Prop) (s : Secret) (i : Z) (w : W) :
  (∀ t1 t2, P t1 → P t2 → P (t1 ++ t2)) →
  P [] →
  (∀ t, attemptCalls (nsOf s) (saName s) (saUID s) (nameOf s) t → P t) →
  (∀ d, P [EvSleep d]) →
  (∀ err, P [EvGlogError err]) →
  P (calls (body s i w)).
Proof.
  intros Happ Hnil Hatt Hsleep Hlog.
  pose proof (remove_shape s w) as Hs.
  destruct (remove s w) as [[o w1] t] eqn:Hr. unfold calls in Hs. simpl in Hs.
  destruct o as [[err|]|msg].
  - destruct (IsConflict (Some err) && (i <? NumServiceAccountUpdateRetries))
      eqn:Hc.
    + rewrite (body_retry s i w w1 t err) by done. simpl. auto.
    + rewrite (body_report s i w w1 t err) by done. simpl. auto.
  - rewrite (body_done s i w w1 t) by done. simpl. auto.
  - rewrite (body_panic s i w w1 t msg) by done. simpl. auto.
Qed.

End Properties.

(** ** The counted loop *)

Section Loop.
Context {W : Type}.
Implicit Types (f : Z → M W LoopCtl) (w : W).

Lemma forRange_break f i rest w w1 t :
  f i w = (Returned Break, w1, t) →
  forRange (i :: rest) f w = (Returned tt, w1, t).
Proof.
  intros H. simpl. unfold_M. rewrite H. by rewrite app_nil_r.
Qed.

Lemma forRange_continue f i rest w w1 t :
  f i w = (Returned Continue, w1, t) →
  forRange (i :: rest) f w
  = (outcome (forRange rest f w1), final (forRange rest f w1),
     t ++ calls (forRange rest f w1)).
Proof.
  intros H. simpl. unfold_M. rewrite H.
  by destruct (forRange rest f w1) as [[o w2] t2].
Qed.

Lemma forRange_panic f i rest w w1 t msg :
  f i w = (Panicked msg, w1, t) →
  forRange (i :: rest) f w = (Panicked msg, w1, t).
Proof.
  intros H. simpl. unfold_M. by rewrite H.
Qed.

(** A property of call sequences that holds of every turn and is kept by
    concatenation holds of the whole loop. *)
Lemma forRange_calls (P : list Event → Prop) f :
  (∀ t1 t2, P t1 → P t2 → P (t1 ++ t2)) →
  P [] →
  (∀ i w, P (calls (f i w))) →
  ∀ range w, P (calls (forRange range f w)).
Proof.
  intros Happ Hnil Hf range.
  induction range as [|i rest IH]; intros w; [done|].
  pose proof (Hf i w) as Hi.
  destruct (f i w) as [[[[|]|msg] w1] t] eqn:Hfi; unfold calls in Hi; simpl in Hi.
  - by rewrite (forRange_break f i rest w w1 t).
  - rewrite (forRange_continue f i rest w w1 t) by done. simpl. auto.
  - by rewrite (forRange_panic f i rest w w1 t msg).
Qed.

(** The loop returns when every turn does. *)
Lemma forRange_returns f :
  (∀ i w, ∃ c, outcome (f i w) = Returned c) →
  ∀ range w, outcome (forRange range f w) = Returned tt.
Proof.
  intros Hf range.
  induction range as [|i rest IH]; intros w; [done|].
  destruct (Hf i w) as [c Hc].
  destruct (f i w) as [[o w1] t] eqn:Hfi. unfold outcome in Hc. simpl in Hc. subst o.
  destruct c.
  - by rewrite (forRange_break f i rest w w1 t).
  - rewrite (forRange_continue f i rest w w1 t) by done. apply IH.
Qed.

End Loop.

(** ** The delete handler *)

Section Handler.
Variables (ServiceAccountTokenSecretNameKey
           ServiceAccountNameKey
           ServiceAccountUIDKey : string).
Context {W : Type} (e : Env W).

Abbreviation remove' :=
  (removeDockercfgSecretReference ServiceAccountNameKey ServiceAccountUIDKey e).
Abbreviation body' := (retryBody ServiceAccountNameKey ServiceAccountUIDKey e).
Abbreviation deleted' :=
  (secretDeleted ServiceAccountTokenSecretNameKey ServiceAccountNameKey
                 ServiceAccountUIDKey e).
Abbreviation saName' s := (backrefName ServiceAccountNameKey s).
Abbreviation saUID' s := (backrefUID ServiceAccountUIDKey s).
Abbreviation token' s := (tokenName ServiceAccountTokenSecretNameKey s).
Abbreviation retries' s :=
  (forRange (seqZ 1 NumServiceAccountUpdateRetries) (body' s)).
Abbreviation del' s w := (Secrets_Delete e (nsOf s) (token' s) w).

(** For a managed secret the handler is the retry loop followed, unless
    the loop panicked, by the Delete of the token and the handling of its
    answer. *)
Lemma deleted_unfold (s : Secret) (w : W) :
  managed ServiceAccountTokenSecretNameKey s →
  deleted' (ObjSecret s) w
  = match retries' s w with
    | (Returned _, w1, t1) =>
        (Returned tt, (del' s w1).2,
         t1 ++ EvDelete (nsOf s) (token' s) (del' s w1).1
            :: handled (del' s w1).1)
    | (Panicked msg, w1, t1) => (Panicked msg, w1, t1)
    end.
Proof.
  intros [tok Htok]. unfold secretDeleted. rewrite Htok. unfold_M.
  destruct (forRange _ _ w) as [[[[]|msg] w1] t1]; [|done].
  unfold clientDelete, tokenName, nsOf.
  destruct (Secrets_Delete e _ _ w1) as [[err|] w2]; simpl; [|done].
  destruct err as [[]|]; done.
Qed.

Lemma deleted_unmanaged (s : Secret) (w : W) :
  ¬ managed ServiceAccountTokenSecretNameKey s →
  deleted' (ObjSecret s) w = (Returned tt, w, []).
Proof.
  intros H. unfold secretDeleted.
  destruct (Annotations _ !! _) eqn:Hl; [|done].
  exfalso. apply H. by eexists.
Qed.

(** When the first turn breaks, the handler is that turn and the Delete. *)
Lemma deleted_first_break (s : Secret) (w w1 : W) (t : list Event) :
  managed ServiceAccountTokenSecretNameKey s →
  body' s 1 w = (Returned Break, w1, t) →
  deleted' (ObjSecret s) w
  = (Returned tt, (del' s w1).2,
     t ++ EvDelete (nsOf s) (token' s) (del' s w1).1 :: handled (del' s w1).1).
Proof.
  intros Hm Hb. rewrite deleted_unfold by done.
  change (seqZ 1 NumServiceAccountUpdateRetries) with (1 :: seqZ 2 9).
  by rewrite (forRange_break _ 1 _ w w1 t).
Qed.

(** A managed secret without a usable back-reference: the first attempt
    panics before any call is made. *)
Lemma deleted_no_backref (s : Secret) (w : W) :
  managed ServiceAccountTokenSecretNameKey s →
  saName' s = "" ∨ saUID' s = "" →
  deleted' (ObjSecret s) w
  = (Panicked "invalid memory address or nil pointer dereference", w, []).
Proof.
  intros Hm Hb. rewrite deleted_unfold by done.
  change (seqZ 1 NumServiceAccountUpdateRetries) with (1 :: seqZ 2 9).
  rewrite (forRange_panic _ 1 _ w w []
             "invalid memory address or nil pointer dereference"); [done|].
  apply body_panic. by apply remove_no_backref.
Qed.

Lemma deleted_returns (s : Secret) (w : W) :
  saName' s ≠ "" → saUID' s ≠ "" →
  outcome (deleted' (ObjSecret s) w) = Returned tt.
Proof.
  intros Hn Hu.
  destruct (decide (managed ServiceAccountTokenSecretNameKey s)) as [Hm|Hm];
    [|by rewrite deleted_unmanaged].
  rewrite deleted_unfold by done.
  pose proof (forRange_returns (body' s)
                (λ i w', body_returns _ _ e s i w' Hn Hu)
                (seqZ 1 NumServiceAccountUpdateRetries) w) as Hr.
  destruct (retries' s w) as [[o w1] t1].
  unfold outcome in Hr. simpl in Hr. by subst o.
Qed.

(** A property kept by concatenation holds of the calls of the handler as
    soon as it holds of the calls of an attempt, of a sleep, of a logged
    error and of the final Delete with the handling of its answer. *)
Lemma deleted_calls (P : list Event → Prop) (s : Secret) (w : W) :
  (∀ t1 t2, P t1 → P t2 → P (t1 ++ t2)) →
  P [] →
  (∀ t, attemptCalls (nsOf s) (saName' s) (saUID' s) (nameOf s) t → P t) →
  (∀ d, P [EvSleep d]) →
  (∀ err, P [EvGlogError err]) →
  (∀ w1, P (EvDelete (nsOf s) (token' s) (del' s w1).1 :: handled (del' s w1).1)) →
  P (calls (deleted' (ObjSecret s) w)).
Proof.
  intros Happ Hnil Hatt Hsleep Hlog Hdel.
  destruct (decide (managed ServiceAccountTokenSecretNameKey s)) as [Hm|Hm];
    [|by rewrite deleted_unmanaged].
  rewrite deleted_unfold by done.
  pose proof (forRange_calls P (body' s) Happ Hnil
                (λ i w', body_calls _ _ e P s i w' Happ Hnil Hatt Hsleep Hlog)
                (seqZ 1 NumServiceAccountUpdateRetries) w) as Hl.
  destruct (retries' s w) as [[[[]|msg] w1] t1];
    unfold calls in *; simpl in *; auto.
Qed.

(** The handler on a fetched service account whose UID is not the
    recorded one. *)
Lemma deleted_mismatch (s : Secret) (w w1 : W) (sa : ServiceAccount) :
  managed ServiceAccountTokenSecretNameKey s →
  saName' s ≠ "" → saUID' s ≠ "" →
  ServiceAccounts_Get e (nsOf s) (saName' s) w = (inl sa, w1) →
  UID (SA_Meta sa) ≠ saUID' s →
  deleted' (ObjSecret s) w
  = (Returned tt, (del' s w1).2,
     [EvGet (nsOf s) (saName' s) (inl sa);
      EvGlogError (uidMismatch s (saUID' s) sa);
      EvDelete (nsOf s) (token' s) (del' s w1).1] ++ handled (del' s w1).1).
Proof.
  intros Hm Hn Hu Hg Hne.
  rewrite (deleted_first_break s w w1
             [EvGet (nsOf s) (saName' s) (inl sa);
              EvGlogError (uidMismatch s (saUID' s) sa)]); [done|done|].
  apply (body_report _ _ e s 1 w w1 [EvGet (nsOf s) (saName' s) (inl sa)]);
    [|done].
  by apply remove_mismatch.
Qed.

(** The handler when the service account is gone. *)
Lemma deleted_sa_gone (s : Secret) (w w1 : W) :
  managed ServiceAccountTokenSecretNameKey s →
  saName' s ≠ "" → saUID' s ≠ "" →
  ServiceAccounts_Get e (nsOf s) (saName' s) w = (inr notFound, w1) →
  deleted' (ObjSecret s) w
  = (Returned tt, (del' s w1).2,
     [EvGet (nsOf s) (saName' s) (inr notFound);
      EvDelete (nsOf s) (token' s) (del' s w1).1] ++ handled (del' s w1).1).
Proof.
  intros Hm Hn Hu Hg.
  rewrite (deleted_first_break s w w1
             [EvGet (nsOf s) (saName' s) (inr notFound)]); [done|done|].
  apply body_done.
  by rewrite (remove_get_error _ _ e s w w1 notFound).
Qed.

(** The handler on a fetched service account with the recorded UID. *)
Lemma deleted_clean (s : Secret) (w w1 : W) (sa : ServiceAccount) :
  managed ServiceAccountTokenSecretNameKey s →
  saName' s ≠ "" → saUID' s ≠ "" →
  ServiceAccounts_Get e (nsOf s) (saName' s) w = (inl sa, w1) →
  UID (SA_Meta sa) = saUID' s →
  ¬ refersTo (nameOf s) sa →
  deleted' (ObjSecret s) w
  = (Returned tt, (del' s w1).2,
     [EvGet (nsOf s) (saName' s) (inl sa);
      EvDelete (nsOf s) (token' s) (del' s w1).1] ++ handled (del' s w1).1).
Proof.
  intros Hm Hn Hu Hg Heq Hr.
  rewrite (deleted_first_break s w w1
             [EvGet (nsOf s) (saName' s) (inl sa)]); [done|done|].
  apply body_done.
  rewrite (remove_match _ _ e s w w1 sa) by done.
  by rewrite decide_False.
Qed.

Lemma deleted_repaired (s : Secret) (w w1 w2 : W) (sa ok : ServiceAccount) :
  managed ServiceAccountTokenSecretNameKey s →
  saName' s ≠ "" → saUID' s ≠ "" →
  ServiceAccounts_Get e (nsOf s) (saName' s) w = (inl sa, w1) →
  UID (SA_Meta sa) = saUID' s →
  refersTo (nameOf s) sa →
  ServiceAccounts_Update e (nsOf s) (stripRefs (nameOf s) sa) w1 = (inl ok, w2) →
  deleted' (ObjSecret s) w
  = (Returned tt, (del' s w2).2,
     [EvGet (nsOf s) (saName' s) (inl sa);
      EvUpdate (nsOf s) (stripRefs (nameOf s) sa) (inl ok);
      EvDelete (nsOf s) (token' s) (del' s w2).1] ++ handled (del' s w2).1).
Proof.
  intros Hm Hn Hu Hg Heq Hr Hup.
  rewrite (deleted_first_break s w w2
             [EvGet (nsOf s) (saName' s) (inl sa);
              EvUpdate (nsOf s) (stripRefs (nameOf s) sa) (inl ok)]);
    [done|done|].
  apply body_done.
  rewrite (remove_match _ _ e s w w1 sa) by done.
  rewrite decide_True by done. by rewrite Hup.
Qed.

End Handler.

(** ** Membership in short call sequences *)

Lemma handled_only_reports (rd : option error) (ev : Event) :
  ev ∈ handled rd → ∃ err, ev = EvHandleError err ∧ rd = Some err ∧ IsNotFound rd = false.
Proof.
  unfold handled. destruct rd as [err|]; [|by intros H%elem_of_nil].
  destruct (IsNotFound (Some err)) eqn:Hnf; [by intros H%elem_of_nil|].
  intros H%list_elem_of_singleton. by exists err.
Qed.

(** ** Exhausting the retries *)

Lemma countCalls_app (p : Event → bool) (t1 t2 : list Event) :
  countCalls p (t1 ++ t2) = (countCalls p t1 + countCalls p t2)%nat.
Proof.
  unfold countCalls. by rewrite List.filter_app, length_app.
Qed.

Lemma countCalls_rounds (p : Event → bool) (ns saName name : string)
    (rounds : list (ServiceAccount * Z)) (k : nat) :
  (∀ x, countCalls p (conflictRound ns saName name x) = k) →
  countCalls p (concat (conflictRound ns saName name <$> rounds))
  = (k * length rounds)%nat.
Proof.
  intros Hk. induction rounds as [|x rounds IH].
  - unfold countCalls. simpl. lia.
  - rewrite fmap_cons. cbn [concat].
    rewrite countCalls_app, IH, Hk. simpl length. lia.
Qed.

(** ** What the handler guarantees against any store *)

Section Reconciler.
Variables (ServiceAccountTokenSecretNameKey
           ServiceAccountNameKey
           ServiceAccountUIDKey : string).
Context {W : Type} (e : Env W).

Abbreviation handler :=
  (secretDeleted ServiceAccountTokenSecretNameKey ServiceAccountNameKey
                 ServiceAccountUIDKey e).
Abbreviation attempt :=
  (removeDockercfgSecretReference ServiceAccountNameKey ServiceAccountUIDKey e).
Abbreviation isManaged s := (managed ServiceAccountTokenSecretNameKey s).
Abbreviation owner s := (backrefName ServiceAccountNameKey s).
Abbreviation ownerUID s := (backrefUID ServiceAccountUIDKey s).
Abbreviation tok s := (tokenName ServiceAccountTokenSecretNameKey s).
Abbreviation delTok s w := (Secrets_Delete e (nsOf s) (tok s) w).

(** C1: for a managed secret with both back-reference annotations, when
    the service account fetched under the recorded name has another UID
    than the recorded one, the handler returns without a single Update
    call, the world it leaves is the one left by the Get and the token
    Delete alone, and that Delete was issued. *)
Theorem uid_guard_blocks_update (s : Secret) (w w1 : W) (sa : ServiceAccount) :
  isManaged s →
  owner s ≠ "" → ownerUID s ≠ "" →
  ServiceAccounts_Get e (nsOf s) (owner s) w = (inl sa, w1) →
  UID (SA_Meta sa) ≠ ownerUID s →
  outcome (handler (ObjSecret s) w) = Returned tt
  ∧ (∀ ns' sa' ru, EvUpdate ns' sa' ru ∉ calls (handler (ObjSecret s) w))
  ∧ final (handler (ObjSecret s) w) = (delTok s w1).2
  ∧ EvDelete (nsOf s) (tok s) (delTok s w1).1 ∈ calls (handler (ObjSecret s) w).
Proof.
  intros Hm Hn Hu Hg Hne.
  rewrite (deleted_mismatch _ _ _ e s w w1 sa) by done.
  unfold outcome, final, calls. simpl.
  split; [done|]. split; [|split; [done|]].
  - intros ns' sa' ru Hin. in_calls Hin.
    destruct Hin as [Hin|[Hin|[Hin|Hin]]]; try discriminate Hin.
    apply handled_only_reports in Hin as (err & Hin & _). discriminate Hin.
  - do 2 apply list_elem_of_further. apply list_elem_of_here.
Qed.

(** C3: on a service account fetched with the recorded UID, the attempt
    updates it to exactly [stripRefs], that is both lists filtered of the
    entries named like the deleted secret with the others in order, and it
    issues that Update if and only if some entry carries the name. *)
Theorem repair_strips_exactly (s : Secret) (w w1 : W) (sa : ServiceAccount) :
  owner s ≠ "" → ownerUID s ≠ "" →
  ServiceAccounts_Get e (nsOf s) (owner s) w = (inl sa, w1) →
  UID (SA_Meta sa) = ownerUID s →
  (∀ ns' sa' ru,
      EvUpdate ns' sa' ru ∈ calls (attempt s w) →
      ns' = nsOf s
      ∧ Secrets sa' = filter (λ r, Ref_Name r ≠ nameOf s) (Secrets sa)
      ∧ ImagePullSecrets sa'
        = filter (λ r, Local_Name r ≠ nameOf s) (ImagePullSecrets sa)
      ∧ SA_Meta sa' = SA_Meta sa)
  ∧ ((∃ ns' sa' ru, EvUpdate ns' sa' ru ∈ calls (attempt s w))
     ↔ (Exists (λ r, Ref_Name r = nameOf s) (Secrets sa)
        ∨ Exists (λ r, Local_Name r = nameOf s) (ImagePullSecrets sa)))
  ∧ (refersTo (nameOf s) sa →
     calls (attempt s w)
     = [EvGet (nsOf s) (owner s) (inl sa);
        EvUpdate (nsOf s) (stripRefs (nameOf s) sa)
          (ServiceAccounts_Update e (nsOf s) (stripRefs (nameOf s) sa) w1).1]
     ∧ final (attempt s w)
       = (ServiceAccounts_Update e (nsOf s) (stripRefs (nameOf s) sa) w1).2)
  ∧ (¬ refersTo (nameOf s) sa →
     attempt s w = (Returned None, w1, [EvGet (nsOf s) (owner s) (inl sa)])).
Proof.
  intros Hn Hu Hg Heq.
  rewrite (remove_match _ _ e s w w1 sa) by done.
  fold (refersTo (nameOf s) sa).
  destruct (decide (refersTo (nameOf s) sa)) as [Hr|Hr].
  - destruct (ServiceAccounts_Update e _ _ w1) as [ru w2].
    unfold calls, final. simpl.
    split; [|split; [|split]].
    + intros ns' sa' ru' Hin. in_calls Hin.
      destruct Hin as [Hin|[Hin|[]]]; [discriminate Hin|].
      injection Hin as -> -> ->. done.
    + split; [by intros _|]. intros _.
      exists (nsOf s), (stripRefs (nameOf s) sa), ru.
      apply list_elem_of_further, list_elem_of_here.
    + done.
    + intros Hnr. contradiction.
  - unfold calls. simpl.
    split; [|split; [|split]].
    + intros ns' sa' ru' Hin. in_calls Hin.
      destruct Hin as [Hin|[]]. discriminate Hin.
    + split; [|by intros H].
      intros (ns' & sa' & ru' & Hin). in_calls Hin.
      destruct Hin as [Hin|[]]. discriminate Hin.
    + intros H. contradiction.
    + done.
Qed.

(** The retry loop neither deletes a secret nor hands an error to
    HandleError. *)
Lemma retries_leave_token (s : Secret) (w : W) :
  Forall (λ ev, isDelete ev = false ∧ isHandled ev = false)
    (calls (forRange (seqZ 1 NumServiceAccountUpdateRetries)
              (retryBody ServiceAccountNameKey ServiceAccountUIDKey e s) w)).
Proof.
  apply forRange_calls.
  - intros t1 t2 H1 H2. by apply Forall_app.
  - constructor.
  - intros i w'. apply body_calls.
    + intros t1 t2 H1 H2. by apply Forall_app.
    + constructor.
    + intros t Ht. destruct Ht; repeat constructor.
    + repeat constructor.
    + repeat constructor.
Qed.

(** C7 (amended): a service account fetched with another UID than the
    recorded one makes getServiceAccount return an error, which the
    handler logs once with glog.Error; there is no Update, no sleep and no
    retry, the token Delete follows directly and the handler returns. *)
Theorem uid_mismatch_is_logged (s : Secret) (w w1 : W) (sa : ServiceAccount) :
  isManaged s →
  owner s ≠ "" → ownerUID s ≠ "" →
  ServiceAccounts_Get e (nsOf s) (owner s) w = (inl sa, w1) →
  UID (SA_Meta sa) ≠ ownerUID s →
  getServiceAccount ServiceAccountNameKey ServiceAccountUIDKey e s w
  = (Returned (None, Some (uidMismatch s (ownerUID s) sa)), w1,
     [EvGet (nsOf s) (owner s) (inl sa)])
  ∧ handler (ObjSecret s) w
    = (Returned tt, (delTok s w1).2,
       [EvGet (nsOf s) (owner s) (inl sa);
        EvGlogError (uidMismatch s (ownerUID s) sa);
        EvDelete (nsOf s) (tok s) (delTok s w1).1]
       ++ handled (delTok s w1).1).
Proof.
  intros Hm Hn Hu Hg Hne. split.
  - by apply getSA_mismatch.
  - by apply deleted_mismatch.
Qed.

(** In the calls of the handler every Update comes right after a Get of
    the recorded service account, and what it writes is the account that
    this very Get returned, with the references to the deleted secret
    taken out. *)
Lemma update_follows_fresh_get (s : Secret) (w : W)
    (i : nat) (ns' : string) (sa' : ServiceAccount)
    (ru : ServiceAccount + error) :
  calls (handler (ObjSecret s) w) !! i = Some (EvUpdate ns' sa' ru) →
  ∃ j sa,
    i = S j
    ∧ calls (handler (ObjSecret s) w) !! j
      = Some (EvGet (nsOf s) (owner s) (inl sa))
    ∧ ns' = nsOf s
    ∧ sa' = stripRefs (nameOf s) sa
    ∧ UID (SA_Meta sa) = ownerUID s.
Proof.
  revert i ns' sa' ru.
  apply (deleted_calls _ _ _ e
           (λ t, ∀ i ns' sa' ru,
              t !! i = Some (EvUpdate ns' sa' ru) →
              ∃ j sa, i = S j
                ∧ t !! j = Some (EvGet (nsOf s) (owner s) (inl sa))
                ∧ ns' = nsOf s ∧ sa' = stripRefs (nameOf s) sa
                ∧ UID (SA_Meta sa) = ownerUID s)).
  - intros t1 t2 H1 H2 i ns' sa' ru Hi.
    rewrite lookup_app in Hi.
    destruct (t1 !! i) as [ev|] eqn:Hl.
    + injection Hi as ->.
      destruct (H1 _ _ _ _ Hl) as (j & sa & -> & Hj & Hrest).
      exists j, sa. split; [done|]. split; [|done].
      by apply lookup_app_l_Some.
    + destruct (H2 _ _ _ _ Hi) as (j & sa & Heq & Hj & Hrest).
      apply lookup_ge_None in Hl.
      exists (length t1 + j)%nat, sa. split; [lia|]. split; [|done].
      rewrite lookup_app_r by lia.
      by replace (length t1 + j - length t1)%nat with j by lia.
  - intros i ns' sa' ru Hi. by rewrite lookup_nil in Hi.
  - intros t Ht i ns' sa' ru Hi. destruct Ht as [|r|sa ru' Huid Hr].
    + by rewrite lookup_nil in Hi.
    + destruct i; [discriminate Hi|]. by rewrite lookup_cons, lookup_nil in Hi.
    + destruct i as [|[|i]]; [discriminate Hi| |discriminate Hi].
      injection Hi as <- <- <-. by exists 0%nat, sa.
  - intros d [|i] ns' sa' ru Hi; discriminate Hi.
  - intros err [|i] ns' sa' ru Hi; discriminate Hi.
  - intros w1 i ns' sa' ru Hi.
    destruct i as [|i]; [discriminate Hi|]. simpl in Hi.
    apply list_elem_of_lookup_2 in Hi.
    apply handled_only_reports in Hi as (err & Hi & _). discriminate Hi.
Qed.

(** C10: when the delivered object is not a Secret, or is a Secret without
    the token-name annotation, the handler returns at once: same world, no
    call, nothing logged. *)
Theorem unmanaged_is_ignored (obj : Object) (w : W) :
  (∀ s, obj = ObjSecret s → ¬ isManaged s) →
  handler obj w = (Returned tt, w, []).
Proof.
  intros H. destruct obj as [s| |]; [|done|done].
  apply deleted_unmanaged. by apply H.
Qed.

End Reconciler.

(** ** Redelivery against the in-memory store *)

Section Redelivery.
Import MemStore.
Variables (ServiceAccountTokenSecretNameKey
           ServiceAccountNameKey
           ServiceAccountUIDKey : string).

Abbreviation onStore :=
  (secretDeleted ServiceAccountTokenSecretNameKey ServiceAccountNameKey
                 ServiceAccountUIDKey env).
Abbreviation recorded s := (backrefName ServiceAccountNameKey s).
Abbreviation recordedUID s := (backrefUID ServiceAccountUIDKey s).
Abbreviation derived s := (tokenName ServiceAccountTokenSecretNameKey s).

Lemma Delete_keeps_accounts (ns name : string) (st : Store) :
  serviceAccounts (Delete ns name st).2 = serviceAccounts st.
Proof.
  unfold Delete. by destruct (secrets st !! (ns, name)).
Qed.

Lemma Delete_twice (ns name : string) (st : Store) :
  Delete ns name (Delete ns name st).2 = (Some notFound, (Delete ns name st).2).
Proof.
  unfold Delete at 2 3. destruct (secrets st !! (ns, name)) eqn:Hl; simpl.
  - unfold Delete. simpl. by rewrite lookup_delete_eq.
  - unfold Delete. by rewrite Hl.
Qed.

Lemma Get_stored (ns name : string) (st : Store) (x : Stored) :
  serviceAccounts st !! (ns, name) = Some x →
  Get ns name st = (inl (load ns name x), st).
Proof. intros H. unfold Get. by rewrite H. Qed.

Lemma Get_missing (ns name : string) (st : Store) :
  serviceAccounts st !! (ns, name) = None →
  Get ns name st = (inr notFound, st).
Proof. intros H. unfold Get. by rewrite H. Qed.

(** An Update of what was just read is accepted. *)
Lemma Update_fresh (ns name rm : string) (st : Store) (x : Stored) :
  serviceAccounts st !! (ns, name) = Some x →
  Update ns (stripRefs rm (load ns name x)) st
  = (inl (load ns name (save (stripRefs rm (load ns name x))
                             (st_Version x + 1)%N)),
     {| serviceAccounts :=
          <[(ns, name) := save (stripRefs rm (load ns name x))
                               (st_Version x + 1)%N]> (serviceAccounts st);
        secrets := secrets st |}).
Proof.
  intros H. unfold Update. simpl. rewrite H. simpl.
  by rewrite bool_decide_eq_true_2.
Qed.

(** Once the token is deleted and the recorded service account, if it is
    there with the recorded UID, no longer references the secret, the
    handler changes nothing, updates nothing and hands nothing to
    HandleError; it logs only for a service account with another UID. *)
Lemma settled_run (s : Secret) (st0 : Store) :
  managed ServiceAccountTokenSecretNameKey s →
  recorded s ≠ "" → recordedUID s ≠ "" →
  (∀ x, serviceAccounts st0 !! (nsOf s, recorded s) = Some x →
        st_UID x = recordedUID s →
        ¬ refersTo (nameOf s) (load (nsOf s) (recorded s) x)) →
  final (onStore (ObjSecret s) (Delete (nsOf s) (derived s) st0).2)
  = (Delete (nsOf s) (derived s) st0).2
  ∧ outcome (onStore (ObjSecret s) (Delete (nsOf s) (derived s) st0).2)
    = Returned tt
  ∧ (∀ ev, ev ∈ calls (onStore (ObjSecret s) (Delete (nsOf s) (derived s) st0).2) →
           isUpdate ev = false ∧ isHandled ev = false)
  ∧ ((∀ x, serviceAccounts st0 !! (nsOf s, recorded s) = Some x →
           st_UID x = recordedUID s) →
     ∀ ev, ev ∈ calls (onStore (ObjSecret s) (Delete (nsOf s) (derived s) st0).2) →
           isReport ev = false).
Proof.
  intros Hm Hn Hu Hclean.
  set (st1 := (Delete (nsOf s) (derived s) st0).2).
  assert (Hacc : serviceAccounts st1 = serviceAccounts st0)
    by apply Delete_keeps_accounts.
  assert (Hdel : Secrets_Delete env (nsOf s) (derived s) st1
                 = (Some notFound, st1)) by apply Delete_twice.
  destruct (serviceAccounts st0 !! (nsOf s, recorded s)) as [x|] eqn:Hx.
  - assert (Hg : ServiceAccounts_Get env (nsOf s) (recorded s) st1
                 = (inl (load (nsOf s) (recorded s) x), st1)).
    { apply Get_stored. by rewrite Hacc. }
    destruct (decide (st_UID x = recordedUID s)) as [Heq|Hne].
    + rewrite (deleted_clean _ _ _ env s st1 st1 _ Hm Hn Hu Hg Heq)
        by (by apply Hclean).
      rewrite Hdel. unfold final, outcome, calls. simpl.
      split; [done|]. split; [done|]. split.
      * intros ev Hin. in_calls Hin.
        by destruct Hin as [->|[->|[]]].
      * intros _ ev Hin. in_calls Hin.
        by destruct Hin as [->|[->|[]]].
    + rewrite (deleted_mismatch _ _ _ env s st1 st1 _ Hm Hn Hu Hg Hne).
      rewrite Hdel. unfold final, outcome, calls. simpl.
      split; [done|]. split; [done|]. split.
      * intros ev Hin. in_calls Hin.
        by destruct Hin as [->|[->|[->|[]]]].
      * intros Hall. destruct Hne. by apply Hall.
  - assert (Hg : ServiceAccounts_Get env (nsOf s) (recorded s) st1
                 = (inr notFound, st1)).
    { apply Get_missing. by rewrite Hacc. }
    rewrite (deleted_sa_gone _ _ _ env s st1 st1 Hm Hn Hu Hg).
    rewrite Hdel. unfold final, outcome, calls. simpl.
    split; [done|]. split; [done|]. split.
    + intros ev Hin. in_calls Hin.
      by destruct Hin as [->|[->|[]]].
    + intros _ ev Hin. in_calls Hin.
      by destruct Hin as [->|[->|[]]].
Qed.

(** After the first delivery the store is the token Delete applied to a
    store in which the recorded service account, if it is there with the
    recorded UID, does not reference the secret. *)
Lemma first_run (s : Secret) (st : Store) :
  managed ServiceAccountTokenSecretNameKey s →
  recorded s ≠ "" → recordedUID s ≠ "" →
  ∃ st0,
    final (onStore (ObjSecret s) st) = (Delete (nsOf s) (derived s) st0).2
    ∧ (∀ x, serviceAccounts st0 !! (nsOf s, recorded s) = Some x →
            st_UID x = recordedUID s →
            ¬ refersTo (nameOf s) (load (nsOf s) (recorded s) x))
    ∧ (∀ x, serviceAccounts st0 !! (nsOf s, recorded s) = Some x →
            ∃ y, serviceAccounts st !! (nsOf s, recorded s) = Some y
                 ∧ st_UID x = st_UID y).
Proof.
  intros Hm Hn Hu.
  destruct (serviceAccounts st !! (nsOf s, recorded s)) as [x|] eqn:Hx.
  - pose proof (Get_stored _ _ _ _ Hx) as Hg.
    destruct (decide (st_UID x = recordedUID s)) as [Heq|Hne].
    + destruct (decide (refersTo (nameOf s) (load (nsOf s) (recorded s) x)))
        as [Hr|Hr].
      * pose proof (Update_fresh _ _ (nameOf s) _ _ Hx) as Hup.
        rewrite (deleted_repaired _ _ _ env s st st _ _ _ Hm Hn Hu Hg Heq Hr Hup).
        eexists. split; [reflexivity|]. simpl. split.
        -- intros y Hy _. rewrite lookup_insert_eq in Hy.
           injection Hy as <-. apply stripRefs_clean.
        -- intros y Hy. rewrite lookup_insert_eq in Hy.
           injection Hy as <-. by exists x.
      * rewrite (deleted_clean _ _ _ env s st st _ Hm Hn Hu Hg Heq Hr).
        exists st. split; [done|]. split.
        -- intros y Hy _. rewrite Hx in Hy. by injection Hy as <-.
        -- intros y Hy. rewrite Hx in Hy. injection Hy as <-. by exists x.
    + rewrite (deleted_mismatch _ _ _ env s st st _ Hm Hn Hu Hg Hne).
      exists st. split; [done|]. split.
      * intros y Hy Hy'. rewrite Hx in Hy. injection Hy as <-. done.
      * intros y Hy. rewrite Hx in Hy. injection Hy as <-. by exists x.
  - pose proof (Get_missing _ _ _ Hx) as Hg.
    rewrite (deleted_sa_gone _ _ _ env s st st Hm Hn Hu Hg).
    exists st. split; [done|]. split.
    + intros y Hy. by rewrite Hx in Hy.
    + intros y Hy. by rewrite Hx in Hy.
Qed.

(** C5 (amended): against the fault-free in-memory store, for a managed
    secret with both back-reference annotations, handling the deletion a
    second time leaves the store exactly as the first handling left it,
    returns normally, issues no Update and hands nothing to HandleError; it
    logs nothing at all when the recorded service account is absent or has
    the recorded UID; and when that account is there under another UID, the
    first and the second handling each log the mismatch. *)
Theorem redelivery_is_idempotent (s : Secret) (st : Store) :
  managed ServiceAccountTokenSecretNameKey s →
  recorded s ≠ "" → recordedUID s ≠ "" →
  final (onStore (ObjSecret s) (final (onStore (ObjSecret s) st)))
  = final (onStore (ObjSecret s) st)
  ∧ outcome (onStore (ObjSecret s) (final (onStore (ObjSecret s) st)))
    = Returned tt
  ∧ (∀ ev,
        ev ∈ calls (onStore (ObjSecret s) (final (onStore (ObjSecret s) st))) →
        isUpdate ev = false ∧ isHandled ev = false)
  ∧ ((∀ x, serviceAccounts st !! (nsOf s, recorded s) = Some x →
           st_UID x = recordedUID s) →
     ∀ ev,
       ev ∈ calls (onStore (ObjSecret s) (final (onStore (ObjSecret s) st))) →
       isReport ev = false)
  ∧ (∀ x, serviceAccounts st !! (nsOf s, recorded s) = Some x →
          st_UID x ≠ recordedUID s →
          EvGlogError (uidMismatch s (recordedUID s)
                         (load (nsOf s) (recorded s) x))
            ∈ calls (onStore (ObjSecret s) st)
          ∧ EvGlogError (uidMismatch s (recordedUID s)
                           (load (nsOf s) (recorded s) x))
              ∈ calls (onStore (ObjSecret s)
                         (final (onStore (ObjSecret s) st)))).
Proof.
  intros Hm Hn Hu.
  assert (Hlog : ∀ x, serviceAccounts st !! (nsOf s, recorded s) = Some x →
            st_UID x ≠ recordedUID s →
            EvGlogError (uidMismatch s (recordedUID s)
                           (load (nsOf s) (recorded s) x))
              ∈ calls (onStore (ObjSecret s) st)
            ∧ EvGlogError (uidMismatch s (recordedUID s)
                             (load (nsOf s) (recorded s) x))
                ∈ calls (onStore (ObjSecret s)
                           (final (onStore (ObjSecret s) st)))).
  { intros x Hx Hne. pose proof (Get_stored _ _ _ _ Hx) as Hg.
    rewrite (deleted_mismatch _ _ _ env s st st _ Hm Hn Hu Hg Hne).
    unfold final, calls. cbn [fst snd].
    split; [apply list_elem_of_further, list_elem_of_here|].
    assert (Hg2 : ServiceAccounts_Get env (nsOf s) (recorded s)
                    (Secrets_Delete env (nsOf s) (derived s) st).2
                  = (inl (load (nsOf s) (recorded s) x),
                     (Secrets_Delete env (nsOf s) (derived s) st).2)).
    { apply Get_stored. change (Secrets_Delete env) with Delete.
      by rewrite Delete_keeps_accounts. }
    rewrite (deleted_mismatch _ _ _ env s _ _ _ Hm Hn Hu Hg2 Hne).
    cbn [snd]. apply list_elem_of_further, list_elem_of_here. }
  assert (Hmain :
    final (onStore (ObjSecret s) (final (onStore (ObjSecret s) st)))
    = final (onStore (ObjSecret s) st)
    ∧ outcome (onStore (ObjSecret s) (final (onStore (ObjSecret s) st)))
      = Returned tt
    ∧ (∀ ev,
          ev ∈ calls (onStore (ObjSecret s) (final (onStore (ObjSecret s) st))) →
          isUpdate ev = false ∧ isHandled ev = false)
    ∧ ((∀ x, serviceAccounts st !! (nsOf s, recorded s) = Some x →
             st_UID x = recordedUID s) →
       ∀ ev,
         ev ∈ calls (onStore (ObjSecret s) (final (onStore (ObjSecret s) st))) →
         isReport ev = false)).
  { destruct (first_run s st Hm Hn Hu) as (st0 & -> & Hclean & Hsame).
    destruct (settled_run s st0 Hm Hn Hu Hclean) as (Hf & Ho & Hq & Hrep).
    split; [done|]. split; [done|]. split; [done|].
    intros Hall. apply Hrep.
    intros x Hx. destruct (Hsame x Hx) as (y & Hy & ->). by apply Hall. }
  destruct Hmain as (H1 & H2 & H3 & H4).
  split; [exact H1|]. split; [exact H2|]. split; [exact H3|].
  split; [exact H4|exact Hlog].
Qed.

End Redelivery.

(** ** The scenarios, evaluated *)

Import MemStore Scenario.

(** sa1 = [d1, d2] / [d1], d1 deleted: sa1 ends as [d2] / [] and tok1 is
    gone. *)
Example scenario_repair :
  outcome (run env (ObjSecret d1) store) = Returned tt
  ∧ (st_Secrets <$> serviceAccounts (final (run env (ObjSecret d1) store))
                      !! ("ns", "sa1")) = Some [ref "d2"]
  ∧ (st_ImagePullSecrets
       <$> serviceAccounts (final (run env (ObjSecret d1) store))
             !! ("ns", "sa1")) = Some []
  ∧ secrets (final (run env (ObjSecret d1) store)) !! ("ns", "tok1") = None.
Proof. vm_compute. done. Qed.

(** sa1 deleted and created again with UID u2: its lists stay as they are,
    tok1 is gone. *)
Example scenario_recreated :
  serviceAccounts (final (run env (ObjSecret d1) recreated))
  = serviceAccounts recreated
  ∧ secrets (final (run env (ObjSecret d1) recreated)) !! ("ns", "tok1") = None.
Proof. vm_compute. done. Qed.

(** With a second writer touching sa1 after every read, the handler gives
    up after ten Updates and still deletes tok1. *)
Example scenario_contended :
  countCalls isUpdate (calls (run contended (ObjSecret d1) store)) = 10%nat
  ∧ countCalls isSleep (calls (run contended (ObjSecret d1) store)) = 9%nat
  ∧ secrets (final (run contended (ObjSecret d1) store)) !! ("ns", "tok1") = None.
Proof. vm_compute. done. Qed.

(** C2 (what the code does instead): a managed secret that records no
    service account makes the handler panic on the nil service account
    before any call is made; in particular the token is not deleted. *)
Theorem orphan_secret_panics :
  managed tokenKey orphan
  ∧ backrefName nameKey orphan = ""
  ∧ run env (ObjSecret orphan) store
    = (Panicked "invalid memory address or nil pointer dereference", store, []).
Proof.
  assert (Hm : managed tokenKey orphan) by (vm_compute; by eexists).
  assert (Hn : backrefName nameKey orphan = "") by reflexivity.
  split; [done|]. split; [done|].
  apply deleted_no_backref; auto.
Qed.

(** ** The theorems at the scenarios *)

Lemma uid_guard_blocks_update_witness :
  outcome (run env (ObjSecret d1) recreated) = Returned tt
  ∧ (∀ ns' sa' ru, EvUpdate ns' sa' ru ∉ calls (run env (ObjSecret d1) recreated))
  ∧ final (run env (ObjSecret d1) recreated)
    = (Delete "ns" "tok1" recreated).2
  ∧ EvDelete "ns" "tok1" None ∈ calls (run env (ObjSecret d1) recreated).
Proof.
  apply (uid_guard_blocks_update tokenKey nameKey uidKey env d1
           recreated recreated (load "ns" "sa1" (sa1 "u2"))).
  - present.
  - nonempty.
  - nonempty.
  - reflexivity.
  - nonempty.
Defined.

Lemma repair_strips_exactly_witness :
  calls (removeDockercfgSecretReference nameKey uidKey env d1 store)
  = [EvGet "ns" "sa1" (inl (load "ns" "sa1" (sa1 "u1")));
     EvUpdate "ns"
       {| SA_Meta := SA_Meta (load "ns" "sa1" (sa1 "u1"));
          Secrets := [ref "d2"];
          ImagePullSecrets := [] |}
       (Update "ns" (stripRefs "d1" (load "ns" "sa1" (sa1 "u1"))) store).1].
Proof.
  assert (Hn : backrefName nameKey d1 ≠ "") by nonempty.
  assert (Hu : backrefUID uidKey d1 ≠ "") by nonempty.
  destruct (repair_strips_exactly nameKey uidKey env d1 store store
              (load "ns" "sa1" (sa1 "u1")) Hn Hu eq_refl eq_refl)
    as (_ & _ & Hcalls & _).
  apply Hcalls. left. vm_compute. apply Exists_cons_hd. reflexivity.
Defined.

Lemma redelivery_is_idempotent_witness :
  final (run env (ObjSecret d1) (final (run env (ObjSecret d1) recreated)))
  = final (run env (ObjSecret d1) recreated)
  ∧ outcome (run env (ObjSecret d1) (final (run env (ObjSecret d1) recreated)))
    = Returned tt
  ∧ (∀ ev,
        ev ∈ calls (run env (ObjSecret d1)
                      (final (run env (ObjSecret d1) recreated))) →
        isUpdate ev = false ∧ isHandled ev = false)
  ∧ ((∀ x, serviceAccounts recreated !! ("ns", "sa1") = Some x →
           st_UID x = "u1") →
     ∀ ev,
       ev ∈ calls (run env (ObjSecret d1)
                     (final (run env (ObjSecret d1) recreated))) →
       isReport ev = false)
  ∧ (∀ x, serviceAccounts recreated !! ("ns", "sa1") = Some x →
          st_UID x ≠ "u1" →
          EvGlogError (uidMismatch d1 "u1" (load "ns" "sa1" x))
            ∈ calls (run env (ObjSecret d1) recreated)
          ∧ EvGlogError (uidMismatch d1 "u1" (load "ns" "sa1" x))
              ∈ calls (run env (ObjSecret d1)
                         (final (run env (ObjSecret d1) recreated)))).
Proof.
  apply (redelivery_is_idempotent tokenKey nameKey uidKey d1 recreated).
  - present.
  - nonempty.
  - nonempty.
Defined.

Lemma uid_mismatch_is_logged_witness :
  getServiceAccount nameKey uidKey env d1 recreated
  = (Returned (None, Some (uidMismatch d1 "u1" (load "ns" "sa1" (sa1 "u2")))),
     recreated, [EvGet "ns" "sa1" (inl (load "ns" "sa1" (sa1 "u2")))])
  ∧ run env (ObjSecret d1) recreated
    = (Returned tt, (Delete "ns" "tok1" recreated).2,
       [EvGet "ns" "sa1" (inl (load "ns" "sa1" (sa1 "u2")));
        EvGlogError
          (Errorf "secret (d1) service account UID (u1) does not match service account (sa1) UID (u2)");
        EvDelete "ns" "tok1" None]).
Proof.
  apply (uid_mismatch_is_logged tokenKey nameKey uidKey env d1
           recreated recreated (load "ns" "sa1" (sa1 "u2"))).
  - present.
  - nonempty.
  - nonempty.
  - reflexivity.
  - nonempty.
Defined.

Lemma unmanaged_is_ignored_witness :
  run env (ObjSecret foreign) store = (Returned tt, store, [])
  ∧ run env (ObjDeletedFinalStateUnknown "ns/d1" (ObjSecret d1)) store
    = (Returned tt, store, []).
Proof.
  split.
  - apply (unmanaged_is_ignored tokenKey nameKey uidKey env).
    intros s [= <-] [tok Htok]. vm_compute in Htok. discriminate Htok.
  - apply (unmanaged_is_ignored tokenKey nameKey uidKey env).
    intros s Hs. discriminate Hs.
Defined.

(** ** Where the specification and the code part *)

(** C7 (as stated) fails: with sa1 created again under UID u2, the UID
    mismatch is turned into an error by getServiceAccount and the handler
    reports it. *)
Lemma uid_mismatch_not_silent :
  (ServiceAccounts_Get env "ns" "sa1" recreated
   = (inl (load "ns" "sa1" (sa1 "u2")), recreated)
   ∧ UID (SA_Meta (load "ns" "sa1" (sa1 "u2"))) ≠ backrefUID uidKey d1)
  ∧ (∃ err, outcome (getServiceAccount nameKey uidKey env d1 recreated)
            = Returned (None, Some err))
  ∧ ¬ (∀ ev, ev ∈ calls (run env (ObjSecret d1) recreated) → isReport ev = false).
Proof.
  split; [split; [reflexivity|nonempty]|]. split.
  - eexists. vm_compute. reflexivity.
  - intros H.
    specialize (H (EvGlogError
      (Errorf "secret (d1) service account UID (u1) does not match service account (sa1) UID (u2)"))).
    assert (Hin : EvGlogError
      (Errorf "secret (d1) service account UID (u1) does not match service account (sa1) UID (u2)")
      ∈ calls (run env (ObjSecret d1) recreated)).
    { vm_compute. apply list_elem_of_further, list_elem_of_here. }
    apply H in Hin. discriminate Hin.
Qed.

(** C5 (as stated) fails: with sa1 created again under UID u2, the second
    handling of the same deletion reports the mismatch again. *)
Lemma redelivery_reports_mismatch :
  ¬ (∀ ev,
        ev ∈ calls (run env (ObjSecret d1) (final (run env (ObjSecret d1) recreated))) →
        isReport ev = false).
Proof.
  intros H.
  specialize (H (EvGlogError
    (Errorf "secret (d1) service account UID (u1) does not match service account (sa1) UID (u2)"))).
  assert (Hin : EvGlogError
    (Errorf "secret (d1) service account UID (u1) does not match service account (sa1) UID (u2)")
    ∈ calls (run env (ObjSecret d1) (final (run env (ObjSecret d1) recreated)))).
  { vm_compute. apply list_elem_of_further, list_elem_of_here. }
  apply H in Hin. discriminate Hin.
Qed.

(** * Further properties of the handler *)

(** ** The shape of every run *)

Lemma IsNotFound_inv (err : error) :
  IsNotFound (Some err) = true → err = notFound.
Proof. destruct err as [[]|]; simpl; intros H; by try discriminate H. Qed.

Lemma precededBy_app (isB okA : Event → bool) (t1 t2 : list Event) :
  precededBy isB okA t1 → precededBy isB okA t2 →
  precededBy isB okA (t1 ++ t2).
Proof.
  intros H1 H2 i b Hi Hb. rewrite lookup_app in Hi.
  destruct (t1 !! i) as [ev|] eqn:Hl.
  - injection Hi as ->.
    destruct (H1 _ _ Hl Hb) as (j & a & -> & Hj & Ha).
    exists j, a. split; [done|]. split; [|done]. by apply lookup_app_l_Some.
  - destruct (H2 _ _ Hi Hb) as (j & a & Heq & Hj & Ha).
    apply lookup_ge_None in Hl.
    exists (length t1 + j)%nat, a. split; [lia|]. split; [|done].
    rewrite lookup_app_r by lia.
    by replace (length t1 + j - length t1)%nat with j by lia.
Qed.

Lemma precededBy_none (isB okA : Event → bool) (t : list Event) :
  Forall (λ ev, isB ev = false) t → precededBy isB okA t.
Proof.
  intros Hall i b Hi Hb. rewrite Forall_forall in Hall.
  apply list_elem_of_lookup_2, Hall in Hi. congruence.
Qed.

Section Shape.
Variables (ServiceAccountTokenSecretNameKey
           ServiceAccountNameKey
           ServiceAccountUIDKey : string).
Context {W : Type} (e : Env W).

Abbreviation try1 :=
  (removeDockercfgSecretReference ServiceAccountNameKey ServiceAccountUIDKey e).
Abbreviation turn := (retryBody ServiceAccountNameKey ServiceAccountUIDKey e).
Abbreviation handle :=
  (secretDeleted ServiceAccountTokenSecretNameKey ServiceAccountNameKey
                 ServiceAccountUIDKey e).
Abbreviation sname s := (backrefName ServiceAccountNameKey s).
Abbreviation suid s := (backrefUID ServiceAccountUIDKey s).
Abbreviation stok s := (tokenName ServiceAccountTokenSecretNameKey s).
Abbreviation sdel s w := (Secrets_Delete e (nsOf s) (stok s) w).
Abbreviation jittered :=
  (λ d : Z, ∃ w' : W, d = (wait_Jitter e (100 * Millisecond) w').1).

(** What an attempt returns tells which calls it made. *)
Lemma remove_result (s : Secret) (w : W) :
  match try1 s w with
  | (Returned None, _, t) => quietAttempt s (sname s) (suid s) t
  | (Returned (Some err), _, t) => failedAttempt s (sname s) (suid s) err t
  | (Panicked _, _, t) => t = [] ∧ (sname s = "" ∨ suid s = "")
  end.
Proof.
  destruct (decide (sname s = "")) as [Hn|Hn];
    [rewrite remove_no_backref by auto; auto|].
  destruct (decide (suid s = "")) as [Hu|Hu];
    [rewrite remove_no_backref by auto; auto|].
  destruct (ServiceAccounts_Get e (nsOf s) (sname s) w) as [[sa|err] w1] eqn:Hg.
  - destruct (decide (UID (SA_Meta sa) = suid s)) as [Heq|Hne].
    + rewrite (remove_match _ _ e s w w1 sa) by done.
      destruct (decide (refersTo _ sa)) as [Hr|Hr]; [|by constructor].
      destruct (ServiceAccounts_Update e _ _ w1) as [[ok|err] w2];
        by constructor.
    + rewrite (remove_mismatch _ _ e s w w1 sa) by done. by constructor.
  - rewrite (remove_get_error _ _ e s w w1 err) by done.
    destruct (IsNotFound (Some err)) eqn:Hnf.
    + apply IsNotFound_inv in Hnf as ->. constructor.
    + by constructor.
Qed.

(** The calls of the retry loop, whatever the store answers. *)
Lemma retries_shape (s : Secret) (range : list Z) :
  ∀ w, loopCalls s (sname s) (suid s) jittered range
         (calls (forRange range (turn s) w)).
Proof.
  induction range as [|i rest IH]; intros w; [constructor|].
  pose proof (remove_result s w) as Hres.
  destruct (try1 s w) as [[[[err|]|msg] w1] t] eqn:Hr.
  - destruct (IsConflict (Some err) && (i <? NumServiceAccountUpdateRetries))
      eqn:Hc.
    + pose proof (body_retry _ _ e s i w w1 t err Hr Hc) as Hb.
      rewrite (forRange_continue _ i rest w _ _ Hb).
      unfold calls at 1. simpl. rewrite <- app_assoc. simpl.
      apply andb_true_iff in Hc as [Hc Hi]. apply Z.ltb_lt in Hi.
      apply loop_retry with (err := err);
        [done|done|done|by eexists|apply IH].
    + pose proof (body_report _ _ e s i w w1 t err Hr Hc) as Hb.
      rewrite (forRange_break _ i rest w _ _ Hb). by apply loop_logged.
  - pose proof (body_done _ _ e s i w w1 t Hr) as Hb.
    rewrite (forRange_break _ i rest w _ _ Hb). by apply loop_quiet.
  - pose proof (body_panic _ _ e s i w w1 t msg Hr) as Hb.
    rewrite (forRange_panic _ i rest w _ _ _ Hb).
    destruct Hres as [-> Hres]. by apply loop_panic.
Qed.

(** The handler on a Secret: nothing for an unmanaged one, a panic before
    any call for a managed one without a usable back-reference, and
    otherwise the retry loop followed by the Delete of the token. *)
Lemma handler_shape (s : Secret) (w : W) :
  handle (ObjSecret s) w = (Returned tt, w, [])
  ∨ ((sname s = "" ∨ suid s = "")
     ∧ handle (ObjSecret s) w
       = (Panicked "invalid memory address or nil pointer dereference", w, []))
  ∨ (managed ServiceAccountTokenSecretNameKey s
     ∧ sname s ≠ "" ∧ suid s ≠ ""
     ∧ ∃ t w1,
         loopCalls s (sname s) (suid s) jittered
           (seqZ 1 NumServiceAccountUpdateRetries) t
         ∧ handle (ObjSecret s) w
           = (Returned tt, (sdel s w1).2,
              t ++ EvDelete (nsOf s) (stok s) (sdel s w1).1
                :: handled (sdel s w1).1)).
Proof.
  destruct (decide (managed ServiceAccountTokenSecretNameKey s)) as [Hm|Hm];
    [|left; by apply deleted_unmanaged].
  right.
  destruct (decide (sname s = "")) as [Hn|Hn];
    [left; split; [auto|apply deleted_no_backref; auto]|].
  destruct (decide (suid s = "")) as [Hu|Hu];
    [left; split; [auto|apply deleted_no_backref; auto]|].
  right. split; [done|]. split; [done|]. split; [done|].
  rewrite deleted_unfold by done.
  pose proof (retries_shape s (seqZ 1 NumServiceAccountUpdateRetries) w) as Hs.
  pose proof (forRange_returns (turn s)
                (λ i w', body_returns _ _ e s i w' Hn Hu)
                (seqZ 1 NumServiceAccountUpdateRetries) w) as Ho.
  destruct (forRange _ (turn s) w) as [[o w1] t].
  unfold outcome in Ho. unfold calls in Hs. simpl in Ho, Hs. subst o.
  by exists t, w1.
Qed.

End Shape.

(** ** What follows from the shape *)

Lemma countCalls_nil (p : Event → bool) : countCalls p [] = 0%nat.
Proof. done. Qed.

Lemma countCalls_cons (p : Event → bool) (ev : Event) (t : list Event) :
  countCalls p (ev :: t) = ((if p ev then 1 else 0) + countCalls p t)%nat.
Proof. unfold countCalls. simpl. by destruct (p ev). Qed.

Ltac count_calls :=
  rewrite ?countCalls_app, ?countCalls_cons, ?countCalls_nil; simpl.

Section Consequences.
Context (s : Secret) (saName saUID : string) (J : Z → Prop).

Abbreviation loopOver := (loopCalls s saName saUID J).

Lemma quiet_counts (t : list Event) :
  quietAttempt s saName saUID t →
  countCalls isGet t = 1%nat ∧ (countCalls isUpdate t ≤ 1)%nat
  ∧ countCalls isSleep t = 0%nat ∧ countCalls isLogged t = 0%nat
  ∧ countCalls isDelete t = 0%nat ∧ countCalls isHandled t = 0%nat
  ∧ sleptFor t = 0.
Proof. intros []; unfold countCalls; simpl; repeat split; lia. Qed.

Lemma failed_counts (err : error) (t : list Event) :
  failedAttempt s saName saUID err t →
  countCalls isGet t = 1%nat ∧ (countCalls isUpdate t ≤ 1)%nat
  ∧ countCalls isSleep t = 0%nat ∧ countCalls isLogged t = 0%nat
  ∧ countCalls isDelete t = 0%nat ∧ countCalls isHandled t = 0%nat
  ∧ sleptFor t = 0.
Proof. intros []; unfold countCalls; simpl; repeat split; lia. Qed.

Lemma sleptFor_app (t1 t2 : list Event) :
  sleptFor (t1 ++ t2) = sleptFor t1 + sleptFor t2.
Proof.
  induction t1 as [|ev t1 IH]; [done|].
  simpl. destruct ev; simpl in *; lia.
Qed.

(** Counting over the loop: at most one Get per counter, never more
    Updates than Gets, at most one sleep per counter below the ceiling, at
    most one logged error, no Delete and nothing handed to HandleError. *)
Lemma loop_counts (range : list Z) (t : list Event) :
  loopOver range t →
  (countCalls isGet t ≤ length range)%nat
  ∧ (countCalls isUpdate t ≤ countCalls isGet t)%nat
  ∧ (countCalls isSleep t
     ≤ length (filter (λ i : Z, (i < NumServiceAccountUpdateRetries)%Z) range))%nat
  ∧ (countCalls isLogged t ≤ 1)%nat
  ∧ countCalls isDelete t = 0%nat
  ∧ countCalls isHandled t = 0%nat.
Proof.
  induction 1 as [|i rest Hb|i rest t Hq|i rest t err Hf Hc
                  |i rest t err d t' Hf Hc Hi Hd Hl IH].
  - count_calls. repeat split; lia.
  - count_calls. repeat split; lia.
  - destruct (quiet_counts t Hq) as (Hg & Hu & Hs & Hl & Hd & Hh & _).
    rewrite Hg, Hs, Hl, Hd, Hh. simpl. repeat split; lia.
  - destruct (failed_counts err t Hf) as (Hg & Hu & Hs & Hl & Hd & Hh & _).
    count_calls. rewrite Hg, Hs, Hl, Hd, Hh. simpl. repeat split; lia.
  - destruct (failed_counts err t Hf) as (Hg & Hu & Hs & Hlg & Hd' & Hh & _).
    destruct IH as (IHg & IHu & IHs & IHl & IHd & IHh).
    rewrite filter_cons_True by done.
    count_calls. rewrite Hg, Hs, Hlg, Hd', Hh. simpl. repeat split; lia.
Qed.

(** No sleep without a conflict right before it. *)
Lemma loop_sleeps (range : list Z) (t : list Event) :
  loopOver range t → precededBy isSleep answersConflict t.
Proof.
  induction 1 as [|i rest Hb|i rest t Hq|i rest t err Hf Hc
                  |i rest t err d t' Hf Hc Hi Hd Hl IH].
  - by apply precededBy_none.
  - by apply precededBy_none.
  - apply precededBy_none. destruct Hq; repeat constructor.
  - apply precededBy_none. destruct Hf; repeat constructor.
  - change (t ++ EvSleep d :: t') with (t ++ [EvSleep d] ++ t').
    rewrite app_assoc. apply precededBy_app; [|done].
    intros k b Hk Hb. destruct Hf as [err Hnf|sa Hne|sa err Heq Hr].
    + destruct k as [|[|k]]; simpl in Hk; try discriminate Hk.
      * injection Hk as <-. discriminate Hb.
      * exists 0%nat. eexists. split; [done|]. split; [done|]. exact Hc.
    + discriminate Hc.
    + destruct k as [|[|[|k]]]; simpl in Hk; try discriminate Hk.
      * injection Hk as <-. discriminate Hb.
      * injection Hk as <-. discriminate Hb.
      * exists 1%nat. eexists. split; [done|]. split; [done|]. exact Hc.
Qed.

(** An event that ends the repair is the last call of the loop. *)
Lemma loop_ends (range : list Z) (t : list Event) :
  loopOver range t →
  ∀ k ev, t !! k = Some ev → endsRepair ev = true → S k = length t.
Proof.
  induction 1 as [|i rest Hb|i rest t Hq|i rest t err Hf Hc
                  |i rest t err d t' Hf Hc Hi Hd Hl IH];
    intros k ev Hk Hev.
  - discriminate Hk.
  - discriminate Hk.
  - destruct Hq as [|sa Heq Hr|sa ok Heq Hr].
    + destruct k as [|k]; [done|discriminate Hk].
    + destruct k as [|k]; [|discriminate Hk].
      injection Hk as <-. discriminate Hev.
    + destruct k as [|[|k]]; [|done|discriminate Hk].
      injection Hk as <-. discriminate Hev.
  - destruct Hf as [err Hnf|sa Hne|sa err Heq Hr].
    + destruct k as [|[|k]]; [|done|discriminate Hk].
      injection Hk as <-. unfold endsRepair in Hev. congruence.
    + destruct k as [|[|k]]; [|done|discriminate Hk].
      injection Hk as <-. discriminate Hev.
    + destruct k as [|[|[|k]]]; [| |done|discriminate Hk].
      * injection Hk as <-. discriminate Hev.
      * injection Hk as <-. discriminate Hev.
  - destruct Hf as [err Hnf|sa Hne|sa err Heq Hr].
    + destruct k as [|[|k]].
      * injection Hk as <-. unfold endsRepair in Hev. congruence.
      * injection Hk as <-. discriminate Hev.
      * simpl in Hk. simpl. f_equal. f_equal. by apply (IH k ev).
    + discriminate Hc.
    + destruct k as [|[|[|k]]].
      * injection Hk as <-. discriminate Hev.
      * injection Hk as <-. discriminate Hev.
      * injection Hk as <-. discriminate Hev.
      * simpl in Hk. simpl. do 3 f_equal. by apply (IH k ev).
Qed.

(** A conflict is logged only at a counter that reached the ceiling, after
    one Get per counter and one sleep per earlier counter. *)
Lemma loop_conflict_logged (range : list Z) (t : list Event) :
  loopOver range t →
  ∀ err, EvGlogError err ∈ t → IsConflict (Some err) = true →
    ∃ pre i post,
      range = pre ++ i :: post
      ∧ NumServiceAccountUpdateRetries ≤ i
      ∧ countCalls isGet t = S (length pre)
      ∧ countCalls isSleep t = length pre.
Proof.
  induction 1 as [|i rest Hb|i rest t Hq|i rest t err Hf Hc
                  |i rest t err d t' Hf Hc Hi Hd Hl IH];
    intros err0 Hin Hconf.
  - by apply elem_of_nil in Hin.
  - by apply elem_of_nil in Hin.
  - destruct Hq; in_calls Hin; decompose [or] Hin; done.
  - assert (err0 = err) as ->.
    { destruct Hf; in_calls Hin; decompose [or] Hin; try done; congruence. }
    rewrite Hconf in Hc. simpl in Hc. apply Z.ltb_ge in Hc.
    destruct (failed_counts err t Hf) as (Hg & _ & Hs & _).
    exists [], i, rest. count_calls. rewrite Hg, Hs.
    simpl. repeat split; try done; lia.
  - assert (Hin' : EvGlogError err0 ∈ t').
    { destruct Hf; in_calls Hin; decompose [or] Hin; done. }
    destruct (IH err0 Hin' Hconf) as (pre & j & post & -> & Hj & Hg' & Hs').
    destruct (failed_counts err t Hf) as (Hg & _ & Hs & _).
    exists (i :: pre), j, post.
    count_calls. rewrite Hg, Hs, Hg', Hs'.
    simpl. repeat split; try done; lia.
Qed.

(** Every sleep lasts what [J] allows, and so does their sum. *)
Lemma loop_slept (range : list Z) (t : list Event) (hi : Z) :
  (∀ d, J d → 0 ≤ d ≤ hi) →
  loopOver range t →
  (∀ d, EvSleep d ∈ t → J d)
  ∧ 0 ≤ sleptFor t ≤ hi * Z.of_nat (countCalls isSleep t).
Proof.
  intros HJ.
  induction 1 as [|i rest Hb|i rest t Hq|i rest t err Hf Hc
                  |i rest t err d t' Hf Hc Hi Hd Hl IH].
  - split; [by intros d H%elem_of_nil|]. count_calls. lia.
  - split; [by intros d H%elem_of_nil|]. count_calls. lia.
  - destruct (quiet_counts t Hq) as (_ & _ & Hs & _ & _ & _ & Hz).
    rewrite Hs, Hz. split; [|lia].
    intros d Hin. destruct Hq; in_calls Hin; decompose [or] Hin; done.
  - destruct (failed_counts err t Hf) as (_ & _ & Hs & _ & _ & _ & Hz).
    rewrite sleptFor_app. count_calls. rewrite Hs, Hz. simpl. split; [|lia].
    intros d Hin. destruct Hf; in_calls Hin; decompose [or] Hin; done.
  - destruct (failed_counts err t Hf) as (_ & _ & Hs & _ & _ & _ & Hz).
    destruct IH as [IHd IHs].
    change (t ++ EvSleep d :: t') with (t ++ [EvSleep d] ++ t').
    rewrite !sleptFor_app. count_calls. rewrite Hs, Hz. simpl. split.
    + intros d' Hin.
      destruct Hf; in_calls Hin; decompose [or] Hin; try done;
        try (by apply IHd); congruence.
    + specialize (HJ d Hd). nia.
Qed.

End Consequences.

(** ** Guarantees that hold against every store *)

Lemma countCalls_zero (p : Event → bool) (t : list Event) :
  countCalls p t = 0%nat → Forall (λ ev, p ev = false) t.
Proof.
  induction t as [|ev t IH]; [constructor|].
  rewrite countCalls_cons. destruct (p ev) eqn:Hp; [lia|].
  intros H. constructor; [done|]. apply IH. lia.
Qed.

Lemma handled_counts (rd : option error) :
  countCalls isGet (handled rd) = 0%nat
  ∧ countCalls isUpdate (handled rd) = 0%nat
  ∧ countCalls isSleep (handled rd) = 0%nat
  ∧ countCalls isLogged (handled rd) = 0%nat
  ∧ countCalls isDelete (handled rd) = 0%nat
  ∧ (countCalls isHandled (handled rd) ≤ 1)%nat
  ∧ sleptFor (handled rd) = 0.
Proof.
  unfold handled. destruct rd as [err|]; [|count_calls; repeat split; lia].
  destruct (IsNotFound (Some err)); count_calls; repeat split; lia.
Qed.

Section Effort.
Variables (ServiceAccountTokenSecretNameKey
           ServiceAccountNameKey
           ServiceAccountUIDKey : string).
Context {W : Type} (e : Env W).

Abbreviation react :=
  (secretDeleted ServiceAccountTokenSecretNameKey ServiceAccountNameKey
                 ServiceAccountUIDKey e).
Abbreviation rname s := (backrefName ServiceAccountNameKey s).
Abbreviation ruid s := (backrefUID ServiceAccountUIDKey s).
Abbreviation rtok s := (tokenName ServiceAccountTokenSecretNameKey s).
Abbreviation rdel s w := (Secrets_Delete e (nsOf s) (rtok s) w).

(** X1: whatever is delivered and whatever the store answers, the handler
    makes at most ten Gets, never more Updates than Gets, at most nine
    sleeps, logs at most one error, issues at most one Delete and hands at
    most one error to HandleError. *)
Theorem handler_effort_is_bounded (obj : Object) (w : W) :
  (countCalls isGet (calls (react obj w)) ≤ 10)%nat
  ∧ (countCalls isUpdate (calls (react obj w))
     ≤ countCalls isGet (calls (react obj w)))%nat
  ∧ (countCalls isSleep (calls (react obj w)) ≤ 9)%nat
  ∧ (countCalls isLogged (calls (react obj w)) ≤ 1)%nat
  ∧ (countCalls isDelete (calls (react obj w)) ≤ 1)%nat
  ∧ (countCalls isHandled (calls (react obj w)) ≤ 1)%nat.
Proof.
  destruct obj as [s|sa|key last];
    [|unfold calls; simpl; count_calls; repeat split; lia..].
  destruct (handler_shape ServiceAccountTokenSecretNameKey
              ServiceAccountNameKey ServiceAccountUIDKey e s w)
    as [->|[[_ ->]|(_ & _ & _ & t & w1 & Hl & ->)]];
    unfold calls; simpl.
  - count_calls. repeat split; lia.
  - count_calls. repeat split; lia.
  - destruct (loop_counts _ _ _ _ _ _ Hl) as (Hg & Hu & Hs & Hlg & Hd & Hh).
    destruct (handled_counts (rdel s w1).1)
      as (Hg' & Hu' & Hs' & Hlg' & Hd' & Hh' & _).
    change (length (filter _ (seqZ 1 NumServiceAccountUpdateRetries)))
      with 9%nat in Hs.
    change (length (seqZ 1 NumServiceAccountUpdateRetries)) with 10%nat in Hg.
    count_calls. rewrite Hg', Hu', Hs', Hlg', Hd'. repeat split; lia.
Qed.

(** X2: for a managed secret with both back-reference annotations the
    handler returns, and whatever happened during the repair the Delete of
    the token is issued exactly once, after every other call to the store;
    an error is handed to HandleError exactly when that Delete answered with
    an error other than not-found. *)
Theorem token_delete_comes_last (s : Secret) (w : W) :
  managed ServiceAccountTokenSecretNameKey s →
  rname s ≠ "" → ruid s ≠ "" →
  ∃ t rd,
    react (ObjSecret s) w
    = (Returned tt, final (react (ObjSecret s) w),
       t ++ EvDelete (nsOf s) (rtok s) rd :: handled rd)
    ∧ Forall (λ ev, isDelete ev = false ∧ isHandled ev = false) t
    ∧ (∀ err, EvHandleError err ∈ calls (react (ObjSecret s) w)
              ↔ rd = Some err ∧ err ≠ notFound).
Proof.
  intros Hm Hn Hu.
  destruct (handler_shape ServiceAccountTokenSecretNameKey
              ServiceAccountNameKey ServiceAccountUIDKey e s w)
    as [Hun|[[Hb _]|(_ & _ & _ & t & w1 & Hl & ->)]].
  - exfalso. rewrite deleted_unfold in Hun by done.
    destruct (forRange _ _ w) as [[[[]|msg] w1] t1]; [|discriminate Hun].
    injection Hun as _ Hc. by destruct t1.
  - destruct Hb; contradiction.
  - exists t, (rdel s w1).1. split; [done|].
    destruct (loop_counts _ _ _ _ _ _ Hl) as (_ & _ & _ & _ & Hd & Hh).
    apply countCalls_zero in Hd, Hh.
    assert (Hall : Forall (λ ev, isDelete ev = false ∧ isHandled ev = false) t).
    { rewrite Forall_forall in *. intros ev Hin. split; auto. }
    split; [done|]. unfold calls. simpl.
    intros err. rewrite elem_of_app, elem_of_cons. split.
    + intros [Hin|[Hin|Hin]].
      * rewrite Forall_forall in Hall. by apply Hall in Hin as [_ ?].
      * discriminate Hin.
      * apply handled_only_reports in Hin as (err' & [= ->] & -> & Hnf).
        split; [done|]. intros ->. discriminate Hnf.
    + intros [-> Hne]. right. right. unfold handled.
      destruct (IsNotFound (Some err)) eqn:Hnf.
      * by apply IsNotFound_inv in Hnf.
      * apply list_elem_of_here.
Qed.

(** X3: the handler never sleeps unless the call right before the sleep
    was a Get or an Update answered with a conflict. *)
Theorem sleep_follows_conflict (obj : Object) (w : W) (i : nat) (d : Z) :
  calls (react obj w) !! i = Some (EvSleep d) →
  ∃ j a,
    i = S j ∧ calls (react obj w) !! j = Some a ∧ answersConflict a = true.
Proof.
  intros Hi.
  assert (Hp : precededBy isSleep answersConflict (calls (react obj w)));
    [|by apply (Hp i (EvSleep d))].
  destruct obj as [s|sa|key last]; [|by apply precededBy_none..].
  destruct (handler_shape ServiceAccountTokenSecretNameKey
              ServiceAccountNameKey ServiceAccountUIDKey e s w)
    as [->|[[_ ->]|(_ & _ & _ & t & w1 & Hl & ->)]];
    [by apply precededBy_none..|].
  apply precededBy_app; [by eapply loop_sleeps|].
  apply precededBy_none. constructor; [done|].
  apply countCalls_zero, handled_counts.
Qed.

(** X4: after a logged error, after an Update that went through and after
    a Get answered with not-found there is no further attempt: the next
    call is the Delete of the token. *)
Theorem repair_stops_at_final_event (s : Secret) (w : W) (i : nat) (ev : Event) :
  calls (react (ObjSecret s) w) !! i = Some ev →
  endsRepair ev = true →
  ∃ rd, calls (react (ObjSecret s) w) !! S i
        = Some (EvDelete (nsOf s) (rtok s) rd).
Proof.
  destruct (handler_shape ServiceAccountTokenSecretNameKey
              ServiceAccountNameKey ServiceAccountUIDKey e s w)
    as [->|[[_ ->]|(_ & _ & _ & t & w1 & Hl & ->)]];
    [discriminate 1..|].
  unfold calls. simpl. intros Hi Hev. exists (rdel s w1).1.
  rewrite lookup_app in Hi. destruct (t !! i) as [ev'|] eqn:Hti.
  - injection Hi as ->.
    rewrite (loop_ends _ _ _ _ _ _ Hl i ev Hti Hev).
    by rewrite list_lookup_middle.
  - destruct (i - length t)%nat as [|k]; [injection Hi as <-; discriminate Hev|].
    simpl in Hi. apply list_elem_of_lookup_2 in Hi.
    apply handled_only_reports in Hi as (err & -> & _). discriminate Hev.
Qed.

(** X5: a conflict is logged only when the retries are used up: the calls
    then hold exactly ten Gets and nine sleeps. *)
Theorem conflict_logged_only_at_ceiling (obj : Object) (w : W) (err : error) :
  EvGlogError err ∈ calls (react obj w) →
  IsConflict (Some err) = true →
  countCalls isGet (calls (react obj w)) = 10%nat
  ∧ countCalls isSleep (calls (react obj w)) = 9%nat.
Proof.
  destruct obj as [s|sa|key last]; [|by intros H%elem_of_nil..].
  destruct (handler_shape ServiceAccountTokenSecretNameKey
              ServiceAccountNameKey ServiceAccountUIDKey e s w)
    as [->|[[_ ->]|(_ & _ & _ & t & w1 & Hl & ->)]];
    [by intros H%elem_of_nil..|].
  unfold calls. simpl. intros Hin Hc.
  rewrite elem_of_app, elem_of_cons in Hin.
  destruct Hin as [Hin|[Hin|Hin]]; [|discriminate Hin|].
  - destruct (loop_conflict_logged _ _ _ _ _ _ Hl err Hin Hc)
      as (pre & i & post & Hrange & Hi & Hg & Hs).
    assert (Hlen : length pre = 9%nat).
    { assert (Hlk : seqZ 1 NumServiceAccountUpdateRetries !! length pre = Some i)
        by (rewrite Hrange; apply list_lookup_middle; done).
      apply lookup_seqZ in Hlk as [-> Hlt].
      unfold NumServiceAccountUpdateRetries in *. lia. }
    destruct (handled_counts (rdel s w1).1) as (Hg' & _ & Hs' & _).
    count_calls. rewrite Hg, Hs, Hg', Hs', Hlen. done.
  - apply handled_only_reports in Hin as (err' & Hin & _). discriminate Hin.
Qed.

(** X6: when the jitter drawn for the base of 100ms always lies between 0
    and [hi], every sleep of the handler is such a jitter and the handler
    sleeps at most nine times [hi] in all. *)
Theorem time_slept_is_bounded (obj : Object) (w : W) (hi : Z) :
  (∀ w', 0 ≤ (wait_Jitter e (100 * Millisecond) w').1 ≤ hi) →
  (∀ d, EvSleep d ∈ calls (react obj w) →
        ∃ w', d = (wait_Jitter e (100 * Millisecond) w').1)
  ∧ 0 ≤ sleptFor (calls (react obj w)) ≤ 9 * hi.
Proof.
  intros Hj.
  assert (Hhi : 0 ≤ hi) by (specialize (Hj w); lia).
  destruct obj as [s|sa|key last];
    [|split; [by intros d H%elem_of_nil|unfold calls; simpl; lia]..].
  destruct (handler_shape ServiceAccountTokenSecretNameKey
              ServiceAccountNameKey ServiceAccountUIDKey e s w)
    as [->|[[_ ->]|(_ & _ & _ & t & w1 & Hl & ->)]];
    [split; [by intros d H%elem_of_nil|unfold calls; simpl; lia]..|].
  unfold calls. simpl.
  destruct (loop_slept _ _ _ _ _ _ hi
              (λ d (Hd : ∃ w', d = (wait_Jitter e (100 * Millisecond) w').1),
                 match Hd with ex_intro _ w' Heq =>
                   eq_ind_r (λ x, 0 ≤ x ≤ hi) (Hj w') Heq end) Hl)
    as [Hd Hs].
  destruct (loop_counts _ _ _ _ _ _ Hl) as (_ & _ & Hc & _).
  change (length (filter _ (seqZ 1 NumServiceAccountUpdateRetries)))
    with 9%nat in Hc.
  destruct (handled_counts (rdel s w1).1) as (_ & _ & _ & _ & _ & _ & Hz).
  split.
  - intros d Hin. rewrite elem_of_app, elem_of_cons in Hin.
    destruct Hin as [Hin|[Hin|Hin]]; [by apply Hd|discriminate Hin|].
    apply handled_only_reports in Hin as (err & Hin & _). discriminate Hin.
  - rewrite sleptFor_app. simpl. rewrite Hz. nia.
Qed.

(** X7: a Get that fails with an error that is neither not-found nor a
    conflict is logged and not retried: one Get, the logged error, the
    Delete of the token. *)
Theorem get_failure_is_logged_once (s : Secret) (w w1 : W) (err : error) :
  managed ServiceAccountTokenSecretNameKey s →
  rname s ≠ "" → ruid s ≠ "" →
  ServiceAccounts_Get e (nsOf s) (rname s) w = (inr err, w1) →
  IsNotFound (Some err) = false →
  IsConflict (Some err) = false →
  react (ObjSecret s) w
  = (Returned tt, (rdel s w1).2,
     [EvGet (nsOf s) (rname s) (inr err);
      EvGlogError err;
      EvDelete (nsOf s) (rtok s) (rdel s w1).1] ++ handled (rdel s w1).1).
Proof.
  intros Hm Hn Hu Hg Hnf Hc.
  rewrite (deleted_first_break _ _ _ e s w w1
             [EvGet (nsOf s) (rname s) (inr err); EvGlogError err]);
    [done|done|].
  apply (body_report _ _ e s 1 w w1 [EvGet (nsOf s) (rname s) (inr err)]);
    [|by rewrite Hc].
  rewrite (remove_get_error _ _ e s w w1 err) by done. by rewrite Hnf.
Qed.

(** X8: an Update that fails with anything but a conflict is logged and not
    retried, a not-found included: only the Get's not-found counts as
    success. *)
Theorem update_failure_is_logged_once (s : Secret) (w w1 w2 : W)
    (sa : ServiceAccount) (err : error) :
  managed ServiceAccountTokenSecretNameKey s →
  rname s ≠ "" → ruid s ≠ "" →
  ServiceAccounts_Get e (nsOf s) (rname s) w = (inl sa, w1) →
  UID (SA_Meta sa) = ruid s →
  refersTo (nameOf s) sa →
  ServiceAccounts_Update e (nsOf s) (stripRefs (nameOf s) sa) w1 = (inr err, w2) →
  IsConflict (Some err) = false →
  react (ObjSecret s) w
  = (Returned tt, (rdel s w2).2,
     [EvGet (nsOf s) (rname s) (inl sa);
      EvUpdate (nsOf s) (stripRefs (nameOf s) sa) (inr err);
      EvGlogError err;
      EvDelete (nsOf s) (rtok s) (rdel s w2).1] ++ handled (rdel s w2).1).
Proof.
  intros Hm Hn Hu Hg Heq Hr Hup Hc.
  rewrite (deleted_first_break _ _ _ e s w w2
             [EvGet (nsOf s) (rname s) (inl sa);
              EvUpdate (nsOf s) (stripRefs (nameOf s) sa) (inr err);
              EvGlogError err]);
    [done|done|].
  apply (body_report _ _ e s 1 w w2
           [EvGet (nsOf s) (rname s) (inl sa);
            EvUpdate (nsOf s) (stripRefs (nameOf s) sa) (inr err)]);
    [|by rewrite Hc].
  rewrite (remove_match _ _ e s w w1 sa) by done.
  rewrite decide_True by done. by rewrite Hup.
Qed.

(** X9: getServiceAccount never panics and makes at most one call, a Get
    of the recorded name; it returns (nil, nil) exactly when one of the two
    back-reference annotations is empty, and then makes no call; and a
    service account it returns is the one the Get answered, carries the
    recorded UID and comes with no error. *)
Theorem getServiceAccount_guard (s : Secret) (w : W) :
  ∃ got err,
    outcome (getServiceAccount ServiceAccountNameKey ServiceAccountUIDKey e s w)
    = Returned (got, err)
    ∧ ((got = None ∧ err = None) ↔ (rname s = "" ∨ ruid s = ""))
    ∧ (rname s = "" ∨ ruid s = "" →
       getServiceAccount ServiceAccountNameKey ServiceAccountUIDKey e s w
       = (Returned (None, None), w, []))
    ∧ (rname s ≠ "" → ruid s ≠ "" →
       calls (getServiceAccount ServiceAccountNameKey ServiceAccountUIDKey e s w)
       = [EvGet (nsOf s) (rname s)
            (ServiceAccounts_Get e (nsOf s) (rname s) w).1]
       ∧ final (getServiceAccount ServiceAccountNameKey ServiceAccountUIDKey
                  e s w)
         = (ServiceAccounts_Get e (nsOf s) (rname s) w).2)
    ∧ (∀ sa, got = Some sa →
         err = None ∧ UID (SA_Meta sa) = ruid s
         ∧ (ServiceAccounts_Get e (nsOf s) (rname s) w).1 = inl sa).
Proof.
  destruct (decide (rname s = "")) as [Hn|Hn].
  { rewrite getSA_no_backref by auto. exists None, None.
    split; [done|]. split; [tauto|]. split; [done|].
    split; [by intros ?|by intros sa].  }
  destruct (decide (ruid s = "")) as [Hu|Hu].
  { rewrite getSA_no_backref by auto. exists None, None.
    split; [done|]. split; [tauto|]. split; [done|].
    split; [by intros ? ?|by intros sa].  }
  destruct (ServiceAccounts_Get e (nsOf s) (rname s) w) as [[sa|err] w1] eqn:Hg.
  - destruct (decide (UID (SA_Meta sa) = ruid s)) as [Heq|Hne].
    + rewrite (getSA_match _ _ e s w w1 sa) by done.
      exists (Some sa), None. unfold outcome, calls, final. simpl.
      split; [done|]. split; [split; [by intros [? _]|tauto]|].
      split; [tauto|]. split; [done|]. by intros sa' [= <-].
    + rewrite (getSA_mismatch _ _ e s w w1 sa) by done.
      eexists None, (Some _). unfold outcome, calls, final. simpl.
      split; [done|]. split; [split; [by intros [_ ?]|tauto]|].
      split; [tauto|]. split; [done|]. by intros sa'.
  - rewrite (getSA_error _ _ e s w w1 err) by done.
    exists None, (Some err). unfold outcome, calls, final. simpl.
    split; [done|]. split; [split; [by intros [_ ?]|tauto]|].
    split; [tauto|]. split; [done|]. by intros sa'.
Qed.

End Effort.

(** ** The filtering loops, on their own *)

(** X10: one pass of the filtering loop over a list returns a sublist of
    it holding exactly the entries with another name; the flag comes out
    raised exactly when it went in raised or the list got shorter; and a
    second pass over the result changes neither the list nor the flag. *)
Theorem dropRef_pass {R} (name_of : R → string) (name : string)
    (l : list R) (changed : bool) :
  (fold_left (dropRef name_of name) l (changed, [])).2 `sublist_of` l
  ∧ (∀ x, x ∈ (fold_left (dropRef name_of name) l (changed, [])).2
          ↔ x ∈ l ∧ name_of x ≠ name)
  ∧ (fold_left (dropRef name_of name) l (changed, [])).1
    = changed
      || bool_decide
           (length (fold_left (dropRef name_of name) l (changed, [])).2
            < length l)%nat
  ∧ (∀ c, fold_left (dropRef name_of name)
            (fold_left (dropRef name_of name) l (changed, [])).2 (c, [])
          = (c, (fold_left (dropRef name_of name) l (changed, [])).2)).
Proof.
  rewrite fold_dropRef. cbn [fst snd app].
  split; [apply sublist_filter|]. split.
  { intros x. rewrite list_elem_of_filter. tauto. }
  split.
  - f_equal. apply bool_decide_ext. rewrite Exists_exists. split.
    + intros (x & Hin & Hx). apply (length_filter_lt _ _ x); [done|].
      by intros H.
    + intros Hlt.
      destruct (decide (Exists (λ r, name_of r = name) l)) as [H|H];
        [by apply Exists_exists|].
      rewrite (filter_none_id name_of name l H) in Hlt. lia.
  - intros c. rewrite fold_dropRef. cbn [app]. f_equal.
    + rewrite bool_decide_eq_false_2; [by destruct c|].
      apply filter_keeps_none.
    + apply filter_none_id, filter_keeps_none.
Qed.

(** X11: passes for two names commute: filtering a list for one secret's
    name and then for another's leaves the same entries as the other way
    round. *)
Theorem dropRef_passes_commute {R} (name_of : R → string) (n1 n2 : string)
    (l : list R) (c1 c2 c3 c4 : bool) :
  (fold_left (dropRef name_of n1)
     (fold_left (dropRef name_of n2) l (c1, [])).2 (c2, [])).2
  = (fold_left (dropRef name_of n2)
       (fold_left (dropRef name_of n1) l (c3, [])).2 (c4, [])).2.
Proof.
  rewrite !fold_dropRef. cbn [snd app].
  rewrite !list_filter_filter. apply list_filter_iff. tauto.
Qed.

(** ** Run and Stop *)

Lemma filter_agree {A} (P Q : A → Prop)
    `{!∀ x, Decision (P x), !∀ x, Decision (Q x)} (l : list A) :
  Forall (λ x, P x ↔ Q x) l → filter P l = filter Q l.
Proof.
  induction 1 as [|x l Hx Hl IH]; [done|].
  destruct (decide (P x)) as [HP|HP].
  - rewrite !filter_cons_True by tauto. by rewrite IH.
  - rewrite !filter_cons_False by tauto. done.
Qed.

Lemma Run_steady (p : Process) :
  steady p →
  ∃ p', Run p = (Returned tt, p', []) ∧ steady p' ∧ is_Some (stopChan p').
Proof.
  intros (Hlive & Hnd & Hall). unfold Run, get_stopChan. unfold_M.
  destruct (stopChan p) as [c|] eqn:Hc.
  - exists p. repeat split; try done. by rewrite Hc.
  - eexists. split; [reflexivity|]. simpl. split; [|by eexists].
    unfold steady, live. simpl. split; [|split].
    + rewrite filter_app.
      rewrite filter_cons_True; [|by apply list_lookup_middle].
      rewrite filter_nil.
      rewrite (filter_agree _ (λ c, chans p !! c = Some ChanOpen)).
      * fold (live p). by rewrite Hlive.
      * eapply Forall_impl; [exact Hall|]. intros c Hlt. simpl in Hlt.
        by rewrite lookup_app_l.
    + apply NoDup_app. split; [done|]. split; [|apply NoDup_singleton].
      intros c Hin ->%list_elem_of_singleton.
      rewrite Forall_forall in Hall. apply Hall in Hin. lia.
    + apply Forall_app. split.
      * eapply Forall_impl; [exact Hall|]. intros c Hlt. simpl in Hlt.
        rewrite length_app. simpl. lia.
      * constructor; [|constructor]. rewrite length_app. simpl. lia.
Qed.

Lemma Stop_steady (p : Process) :
  steady p →
  ∃ p', Stop p = (Returned tt, p', []) ∧ steady p' ∧ stopChan p' = None.
Proof.
  intros (Hlive & Hnd & Hall). unfold Stop, get_stopChan. unfold_M.
  destruct (stopChan p) as [c|] eqn:Hc.
  - assert (Hopen : chans p !! c = Some ChanOpen).
    { assert (Hin : c ∈ live p) by (rewrite Hlive; apply list_elem_of_here).
      by apply list_elem_of_filter in Hin as [? _]. }
    unfold close_chan. rewrite Hopen. unfold set_stopChan. simpl.
    eexists. split; [reflexivity|]. split; [|done].
    unfold steady, live. simpl. split; [|split; [done|]].
    + rewrite (list_filter_iff _ (λ c', c' ≠ c ∧ chans p !! c' = Some ChanOpen)).
      * rewrite <- list_filter_filter. fold (live p). rewrite Hlive.
        by rewrite filter_cons_False by tauto.
      * intros c'. destruct (decide (c' = c)) as [->|Hne].
        -- rewrite list_lookup_insert_eq by (by eapply lookup_lt_Some).
           split; [discriminate 1|tauto].
        -- rewrite list_lookup_insert_ne by done. tauto.
    + eapply Forall_impl; [exact Hall|]. intros c' Hlt. simpl in Hlt.
      by rewrite length_insert.
  - exists p. repeat split; try done. by rewrite Hc.
Qed.

Lemma drive_steady (cs : list LifeCall) :
  ∀ p0, steady p0 →
    ∃ p, drive cs p0 = (Returned tt, p, []) ∧ steady p
         ∧ match last cs with
           | Some CallRun => is_Some (stopChan p)
           | Some CallStop => stopChan p = None
           | None => p = p0
           end.
Proof.
  induction cs as [|c cs IH]; intros p0 H0; [by exists p0|].
  assert (Hstep : ∃ p1, steady p1
            ∧ drive (c :: cs) p0 = drive cs p1
            ∧ match c with
              | CallRun => is_Some (stopChan p1)
              | CallStop => stopChan p1 = None
              end).
  { destruct c.
    - destruct (Run_steady p0 H0) as (p1 & Hr & H1 & Hs).
      exists p1. split; [done|]. split; [|done].
      simpl. unfold_M. rewrite Hr. by destruct (drive cs p1) as [[o p2] t2].
    - destruct (Stop_steady p0 H0) as (p1 & Hr & H1 & Hs).
      exists p1. split; [done|]. split; [|done].
      simpl. unfold_M. rewrite Hr. by destruct (drive cs p1) as [[o p2] t2]. }
  destruct Hstep as (p1 & H1 & -> & Hc).
  destruct (IH p1 H1) as (p & Hd & Hp & Hl).
  exists p. split; [done|]. split; [done|].
  destruct cs as [|c' cs].
  - simpl in *. subst p. by destruct c.
  - change (last (c :: c' :: cs)) with (last (c' :: cs)).
    destruct (last (c' :: cs)) as [[]|] eqn:Hlast; [done|done|].
    by apply last_None in Hlast.
Qed.

Lemma drive_app (a b : list LifeCall) :
  ∀ p0 p, drive a p0 = (Returned tt, p, []) → drive (a ++ b) p0 = drive b p.
Proof.
  induction a as [|c a IH]; intros p0 p H.
  - by injection H as ->.
  - assert (Hstep : ∀ (m : M Process unit),
              (m ;; drive a) p0 = (Returned tt, p, []) →
              (m ;; drive (a ++ b)) p0 = drive b p).
    { intros m Hm. unfold_M.
      destruct (m p0) as [[[[]|msg] p1] t1]; [|discriminate Hm].
      destruct (drive a p1) as [[o p2] t2] eqn:Ha.
      injection Hm as -> -> Ht. apply app_eq_nil in Ht as [-> ->].
      rewrite (IH p1 p Ha). by destruct (drive b p) as [[o p3] t3]. }
    destruct c; simpl in *; by apply Hstep.
Qed.

Lemma new_steady : steady NewDockercfgDeletedController.
Proof. repeat split; constructor. Qed.

(** X12: from a new controller, any sequence of Run and Stop calls made
    one after the other returns without panic (Stop never closes a channel
    twice); afterwards at most one informer loop has its stop channel still
    open, the one of the controller's stop channel; no channel was handed to
    two loops; and the controller holds a stop channel exactly when the last
    call was Run. *)
Theorem lifecycle_is_steady (cs : list LifeCall) :
  ∃ p,
    drive cs NewDockercfgDeletedController = (Returned tt, p, [])
    ∧ live p = match stopChan p with Some c => [c] | None => [] end
    ∧ NoDup (loops p)
    ∧ match last cs with
      | Some CallRun => is_Some (stopChan p)
      | Some CallStop | None => stopChan p = None
      end.
Proof.
  destruct (drive_steady cs _ new_steady) as (p & Hd & (Hl & Hn & _) & Hlast).
  exists p. split; [done|]. split; [done|]. split; [done|].
  destruct (last cs) as [[]|]; [done|done|by subst p].
Qed.

(** X13: at any point of such a sequence, calling Run twice is the same as
    calling it once, and so is calling Stop twice. *)
Theorem lifecycle_calls_are_idempotent (cs : list LifeCall) (c : LifeCall) :
  drive (cs ++ [c; c]) NewDockercfgDeletedController
  = drive (cs ++ [c]) NewDockercfgDeletedController.
Proof.
  destruct (drive_steady cs _ new_steady) as (p & Hd & Hp & _).
  rewrite !(drive_app cs _ _ p Hd).
  destruct c.
  - destruct (Run_steady p Hp) as (p1 & Hr & H1 & [ch Hs]).
    simpl. unfold_M. rewrite Hr.
    unfold Run at 1, get_stopChan. unfold_M. by rewrite Hs.
  - destruct (Stop_steady p Hp) as (p1 & Hr & H1 & Hs).
    simpl. unfold_M. rewrite Hr.
    unfold Stop at 1, get_stopChan. unfold_M. by rewrite Hs.
Qed.

(** ** The net effect on the in-memory store *)

Section Effect.
Import MemStore.
Variables (ServiceAccountTokenSecretNameKey
           ServiceAccountNameKey
           ServiceAccountUIDKey : string).

Abbreviation settle :=
  (secretDeleted ServiceAccountTokenSecretNameKey ServiceAccountNameKey
                 ServiceAccountUIDKey env).
Abbreviation ownerName s := (backrefName ServiceAccountNameKey s).
Abbreviation ownerId s := (backrefUID ServiceAccountUIDKey s).
Abbreviation tokenOf s := (tokenName ServiceAccountTokenSecretNameKey s).

Lemma Delete_secrets (ns name : string) (st : Store) :
  secrets (Delete ns name st).2 = delete (ns, name) (secrets st).
Proof.
  unfold Delete. destruct (secrets st !! (ns, name)) eqn:Hl; simpl; [done|].
  symmetry. by apply delete_id.
Qed.

(** X14: against the in-memory store, for a managed secret with both
    back-reference annotations, the handler removes the token and no other
    secret, leaves every other service account as it is, and rewrites the
    recorded service account only when it carries the recorded UID and
    references the secret: it is then stored with the references taken out
    of both lists and the next version, its UID and annotations kept. *)
Theorem handler_effect_on_store (s : Secret) (st : Store) :
  managed ServiceAccountTokenSecretNameKey s →
  ownerName s ≠ "" → ownerId s ≠ "" →
  secrets (final (settle (ObjSecret s) st))
  = delete (nsOf s, tokenOf s) (secrets st)
  ∧ (∀ k, k ≠ (nsOf s, ownerName s) →
          serviceAccounts (final (settle (ObjSecret s) st)) !! k
          = serviceAccounts st !! k)
  ∧ serviceAccounts (final (settle (ObjSecret s) st)) !! (nsOf s, ownerName s)
    = match serviceAccounts st !! (nsOf s, ownerName s) with
      | Some x =>
          if decide (st_UID x = ownerId s
                     ∧ refersTo (nameOf s) (load (nsOf s) (ownerName s) x))
          then Some {| st_UID := st_UID x;
                       st_Version := (st_Version x + 1)%N;
                       st_Annotations := st_Annotations x;
                       st_Secrets :=
                         filter (λ r, Ref_Name r ≠ nameOf s) (st_Secrets x);
                       st_ImagePullSecrets :=
                         filter (λ r, Local_Name r ≠ nameOf s)
                                (st_ImagePullSecrets x) |}
          else Some x
      | None => None
      end.
Proof.
  intros Hm Hn Hu.
  destruct (serviceAccounts st !! (nsOf s, ownerName s)) as [x|] eqn:Hx.
  - pose proof (Get_stored _ _ _ _ Hx) as Hg.
    destruct (decide (st_UID x = ownerId s)) as [Heq|Hne].
    + destruct (decide (refersTo (nameOf s) (load (nsOf s) (ownerName s) x)))
        as [Hr|Hr].
      * pose proof (Update_fresh _ _ (nameOf s) _ _ Hx) as Hup.
        rewrite (deleted_repaired _ _ _ env s st st _ _ _ Hm Hn Hu Hg Heq Hr Hup).
        unfold final. cbn [fst snd].
        rewrite Delete_secrets, Delete_keeps_accounts. simpl.
        rewrite decide_True by done.
        split; [done|]. split.
        -- intros k Hk. by rewrite lookup_insert_ne.
        -- by rewrite lookup_insert_eq.
      * rewrite (deleted_clean _ _ _ env s st st _ Hm Hn Hu Hg Heq Hr).
        unfold final. cbn [fst snd].
        rewrite Delete_secrets, Delete_keeps_accounts.
        rewrite decide_False by tauto. by rewrite Hx.
    + rewrite (deleted_mismatch _ _ _ env s st st _ Hm Hn Hu Hg Hne).
      unfold final. cbn [fst snd].
      rewrite Delete_secrets, Delete_keeps_accounts.
      rewrite decide_False by tauto. by rewrite Hx.
  - pose proof (Get_missing _ _ _ Hx) as Hg.
    rewrite (deleted_sa_gone _ _ _ env s st st Hm Hn Hu Hg).
    unfold final. cbn [fst snd].
    rewrite Delete_secrets, Delete_keeps_accounts. by rewrite Hx.
Qed.

End Effect.

(** ** The further properties at the scenarios *)

Lemma token_delete_comes_last_witness :
  ∃ t rd,
    run env (ObjSecret d1) store
    = (Returned tt, final (run env (ObjSecret d1) store),
       t ++ EvDelete "ns" "tok1" rd :: handled rd)
    ∧ Forall (λ ev, isDelete ev = false ∧ isHandled ev = false) t
    ∧ (∀ err, EvHandleError err ∈ calls (run env (ObjSecret d1) store)
              ↔ rd = Some err ∧ err ≠ notFound).
Proof.
  apply (token_delete_comes_last tokenKey nameKey uidKey env d1 store).
  - present.
  - nonempty.
  - nonempty.
Defined.

Lemma sleep_follows_conflict_witness :
  calls (run contended (ObjSecret d1) store) !! 2%nat
  = Some (EvSleep (100 * Millisecond))
  ∧ ∃ j a,
      2%nat = S j
      ∧ calls (run contended (ObjSecret d1) store) !! j = Some a
      ∧ answersConflict a = true.
Proof.
  assert (H : calls (run contended (ObjSecret d1) store) !! 2%nat
              = Some (EvSleep (100 * Millisecond)))
    by (vm_compute; reflexivity).
  split; [exact H|].
  exact (sleep_follows_conflict tokenKey nameKey uidKey contended
           (ObjSecret d1) store 2%nat _ H).
Defined.

Lemma repair_stops_at_final_event_witness :
  ∃ ev,
    calls (run env (ObjSecret d1) store) !! 1%nat = Some ev
    ∧ endsRepair ev = true
    ∧ ∃ rd, calls (run env (ObjSecret d1) store) !! 2%nat
            = Some (EvDelete "ns" "tok1" rd).
Proof.
  eexists. split; [vm_compute; reflexivity|]. split; [reflexivity|].
  eapply (repair_stops_at_final_event tokenKey nameKey uidKey env d1 store 1%nat).
  - vm_compute. reflexivity.
  - reflexivity.
Defined.

Lemma conflict_logged_only_at_ceiling_witness :
  EvGlogError conflict ∈ calls (run contended (ObjSecret d1) store)
  ∧ countCalls isGet (calls (run contended (ObjSecret d1) store)) = 10%nat
  ∧ countCalls isSleep (calls (run contended (ObjSecret d1) store)) = 9%nat.
Proof.
  assert (H : EvGlogError conflict ∈ calls (run contended (ObjSecret d1) store)).
  { apply (list_elem_of_lookup_2 _ 29%nat). vm_compute. reflexivity. }
  split; [exact H|].
  exact (conflict_logged_only_at_ceiling tokenKey nameKey uidKey contended
           (ObjSecret d1) store conflict H eq_refl).
Defined.

Lemma time_slept_is_bounded_witness :
  (∀ d, EvSleep d ∈ calls (run contended (ObjSecret d1) store) →
        ∃ w', d = (wait_Jitter contended (100 * Millisecond) w').1)
  ∧ 0 ≤ sleptFor (calls (run contended (ObjSecret d1) store))
      ≤ 9 * (100 * Millisecond).
Proof.
  apply (time_slept_is_bounded tokenKey nameKey uidKey contended
           (ObjSecret d1) store (100 * Millisecond)).
  intros w'. simpl. unfold Millisecond. lia.
Defined.

Lemma get_failure_is_logged_once_witness :
  secretDeleted tokenKey nameKey uidKey
    (Faults.canned (inr Faults.forbidden) (inr conflict) None) (ObjSecret d1) 0%nat
  = (Returned tt, 2%nat,
     [EvGet "ns" "sa1" (inr Faults.forbidden);
      EvGlogError Faults.forbidden;
      EvDelete "ns" "tok1" None]).
Proof.
  apply (get_failure_is_logged_once tokenKey nameKey uidKey
           (Faults.canned (inr Faults.forbidden) (inr conflict) None)
           d1 0%nat 1%nat Faults.forbidden).
  - present.
  - nonempty.
  - nonempty.
  - reflexivity.
  - reflexivity.
  - reflexivity.
Defined.

Lemma update_failure_is_logged_once_witness :
  secretDeleted tokenKey nameKey uidKey
    (Faults.canned (inl Faults.account) (inr notFound) None) (ObjSecret d1) 0%nat
  = (Returned tt, 3%nat,
     [EvGet "ns" "sa1" (inl Faults.account);
      EvUpdate "ns" (stripRefs "d1" Faults.account) (inr notFound);
      EvGlogError notFound;
      EvDelete "ns" "tok1" None]).
Proof.
  apply (update_failure_is_logged_once tokenKey nameKey uidKey
           (Faults.canned (inl Faults.account) (inr notFound) None)
           d1 0%nat 1%nat 2%nat Faults.account notFound).
  - present.
  - nonempty.
  - nonempty.
  - reflexivity.
  - reflexivity.
  - left. apply Exists_cons_hd. reflexivity.
  - reflexivity.
  - reflexivity.
Defined.

Lemma handler_effect_on_store_witness :
  secrets (final (run env (ObjSecret d1) store))
  = delete ("ns", "tok1") (secrets store)
  ∧ (∀ k, k ≠ ("ns", "sa1") →
          serviceAccounts (final (run env (ObjSecret d1) store)) !! k
          = serviceAccounts store !! k)
  ∧ serviceAccounts (final (run env (ObjSecret d1) store)) !! ("ns", "sa1")
    = Some {| st_UID := "u1"; st_Version := 8%N; st_Annotations := ∅;
              st_Secrets := [ref "d2"]; st_ImagePullSecrets := [] |}.
Proof.
  assert (Hm : managed tokenKey d1) by present.
  assert (Hn : backrefName nameKey d1 ≠ "") by nonempty.
  assert (Hu : backrefUID uidKey d1 ≠ "") by nonempty.
  destruct (handler_effect_on_store tokenKey nameKey uidKey d1 store Hm Hn Hu)
    as (Hs & Hk & Ha).
  split; [exact Hs|]. split; [exact Hk|].
  etransitivity; [exact Ha|]. vm_compute. reflexivity.
Defined.

(** ** Silence after success, and confinement *)

Lemma loop_silent (s : Secret) (saName saUID : string) (J : Z → Prop)
    (range : list Z) (t : list Event) :
  loopCalls s saName saUID J range t →
  ∀ ev, ev ∈ t → endsRepair ev = true → isLogged ev = false →
    countCalls isLogged t = 0%nat.
Proof.
  induction 1 as [|i rest Hb|i rest t Hq|i rest t err Hf Hc
                  |i rest t err d t' Hf Hc Hi Hd Hl IH];
    intros ev Hin Hev Hlg.
  - done.
  - done.
  - by destruct (quiet_counts _ _ _ t Hq) as (_ & _ & _ & ? & _).
  - exfalso. destruct Hf as [err Hnf|sa Hne|sa err Heq Hr];
      in_calls Hin; decompose [or] Hin; subst; try done;
      unfold endsRepair in Hev; congruence.
  - assert (Hin' : ev ∈ t').
    { destruct Hf as [err Hnf|sa Hne|sa err Heq Hr];
        in_calls Hin; decompose [or] Hin; subst; try done;
        unfold endsRepair in Hev; congruence. }
    destruct (failed_counts _ _ _ err t Hf) as (_ & _ & _ & Hz & _).
    count_calls. rewrite Hz, (IH ev Hin' Hev Hlg). done.
Qed.

Section Confinement.
Variables (ServiceAccountTokenSecretNameKey
           ServiceAccountNameKey
           ServiceAccountUIDKey : string).
Context {W : Type} (e : Env W).

Abbreviation onDelete :=
  (secretDeleted ServiceAccountTokenSecretNameKey ServiceAccountNameKey
                 ServiceAccountUIDKey e).

(** X15: when the calls of the handler hold an Update that went through,
    or a Get answered with not-found, no error is logged, however many
    conflicts came before. *)
Theorem success_is_silent (s : Secret) (w : W) (i : nat) (ev : Event) :
  calls (onDelete (ObjSecret s) w) !! i = Some ev →
  endsRepair ev = true →
  isLogged ev = false →
  ∀ err, EvGlogError err ∉ calls (onDelete (ObjSecret s) w).
Proof.
  destruct (handler_shape ServiceAccountTokenSecretNameKey
              ServiceAccountNameKey ServiceAccountUIDKey e s w)
    as [->|[[_ ->]|(_ & _ & _ & t & w1 & Hl & ->)]];
    [discriminate 1..|].
  unfold calls. simpl. intros Hi Hev Hlg err Herr.
  assert (Hin : ev ∈ t).
  { apply list_elem_of_lookup_2 in Hi. rewrite elem_of_app, elem_of_cons in Hi.
    destruct Hi as [Hi|[->|Hi]]; [done|discriminate Hev|].
    apply handled_only_reports in Hi as (err' & -> & _). discriminate Hev. }
  pose proof (loop_silent _ _ _ _ _ _ Hl ev Hin Hev Hlg) as Hz.
  apply countCalls_zero in Hz. rewrite Forall_forall in Hz.
  rewrite elem_of_app, elem_of_cons in Herr.
  destruct Herr as [Herr|[Herr|Herr]].
  - apply Hz in Herr. discriminate Herr.
  - discriminate Herr.
  - apply handled_only_reports in Herr as (err' & Herr & _). discriminate Herr.
Qed.

(** X16: whatever the store answers, the handler only ever gets the
    service account named by the back-reference annotation, only updates an
    account that carries the recorded UID, only deletes the secret named by
    the token annotation, and does all of it in the namespace of the deleted
    secret. *)
Theorem calls_are_confined (s : Secret) (w : W) :
  Forall (confined s (backrefName ServiceAccountNameKey s)
                     (backrefUID ServiceAccountUIDKey s)
                     (tokenName ServiceAccountTokenSecretNameKey s))
         (calls (onDelete (ObjSecret s) w)).
Proof.
  apply deleted_calls.
  - intros t1 t2 H1 H2. by apply Forall_app.
  - constructor.
  - intros t Ht. destruct Ht as [|r|sa ru Huid Hr]; repeat constructor; done.
  - repeat constructor.
  - repeat constructor.
  - intros w1. constructor; [done|].
    rewrite Forall_forall. intros ev Hin.
    by apply handled_only_reports in Hin as (err & -> & _).
Qed.

End Confinement.

Lemma success_is_silent_witness :
  ∃ ev,
    calls (run env (ObjSecret d1) store) !! 1%nat = Some ev
    ∧ endsRepair ev = true ∧ isLogged ev = false
    ∧ ∀ err, EvGlogError err ∉ calls (run env (ObjSecret d1) store).
Proof.
  eexists. split; [vm_compute; reflexivity|].
  split; [reflexivity|]. split; [reflexivity|].
  eapply (success_is_silent tokenKey nameKey uidKey env d1 store 1%nat).
  - vm_compute. reflexivity.
  - reflexivity.
  - reflexivity.
Defined.

(** * Retrying under contention *)

(** ** The loop, turn by turn *)

Section Turns.
Context (s : Secret) (saName saUID : string) (J : Z → Prop).
Hypothesis Hname : saName ≠ "".
Hypothesis Huid : saUID ≠ "".

Abbreviation turns := (loopCalls s saName saUID J).

(** A turn that is taken starts with the Get. *)
Lemma loop_starts_with_get (c : Z) (rest : list Z) (t : list Event) :
  turns (c :: rest) t → ∃ r tl, t = EvGet (nsOf s) saName r :: tl.
Proof.
  inversion 1 as [|? ? Hb|? ? ? Hq|? ? ? ? Hf|? ? ? ? ? ? Hf]; subst.
  - destruct Hb; contradiction.
  - destruct Hq; by eexists _, _.
  - destruct Hf; by eexists _, _.
  - destruct Hf; by eexists _, _.
Qed.

(** An Update that loses to a conflict at a counter below the ceiling is
    followed by a sleep and by the Get of the next turn. *)
Lemma loop_restarts (range : list Z) (t : list Event) :
  turns range t →
  ∀ idx ns sa err,
    t !! idx = Some (EvUpdate ns sa (inr err)) →
    IsConflict (Some err) = true →
    Forall (λ c, c < NumServiceAccountUpdateRetries)
           (take (countCalls isGet (take idx t)) range) →
    (countCalls isGet (take idx t) < length range)%nat →
    ∃ d r, t !! S idx = Some (EvSleep d)
           ∧ t !! S (S idx) = Some (EvGet (nsOf s) saName r).
Proof.
  induction 1 as [|i rest Hb|i rest t Hq|i rest t err Hf Hc
                  |i rest t err d t' Hf Hc Hi Hd Hl IH];
    intros idx ns sa err0 Hidx Hc0 Hall Hlen.
  - discriminate Hidx.
  - discriminate Hidx.
  - destruct Hq; destruct idx as [|[|idx]]; discriminate Hidx.
  - destruct Hf as [err Hnf|sa' Hne|sa' err Heq Hr];
      destruct idx as [|[|[|idx]]]; try discriminate Hidx.
    injection Hidx as <- <- <-.
    unfold countCalls in Hall. simpl in Hall.
    apply Forall_cons in Hall as [Hlt _].
    rewrite Hc0 in Hc. simpl in Hc. apply Z.ltb_ge in Hc. lia.
  - destruct Hf as [err Hnf|sa' Hne|sa' err Heq Hr].
    + destruct idx as [|[|idx]]; try discriminate Hidx.
      simpl in Hidx. unfold countCalls in *. simpl in Hall, Hlen.
      apply Forall_cons in Hall as [_ Hall].
      destruct (IH idx ns sa err0 Hidx Hc0 Hall ltac:(lia)) as (d' & r & H1 & H2).
      by exists d', r.
    + discriminate Hc.
    + destruct idx as [|[|[|idx]]]; try discriminate Hidx.
      * injection Hidx as <- <- <-.
        unfold countCalls in Hlen. simpl in Hlen.
        destruct rest as [|c rest]; [simpl in Hlen; lia|].
        destruct (loop_starts_with_get c rest t' Hl) as (r & tl & ->).
        by exists d, r.
      * simpl in Hidx. unfold countCalls in *. simpl in Hall, Hlen.
        apply Forall_cons in Hall as [_ Hall].
        destruct (IH idx ns sa err0 Hidx Hc0 Hall ltac:(lia))
          as (d' & r & H1 & H2).
        by exists d', r.
Qed.

(** An Update that fails with anything but a conflict is logged at once. *)
Lemma loop_update_failure (range : list Z) (t : list Event) :
  turns range t →
  ∀ idx ns sa err,
    t !! idx = Some (EvUpdate ns sa (inr err)) →
    IsConflict (Some err) = false →
    t !! S idx = Some (EvGlogError err).
Proof.
  induction 1 as [|i rest Hb|i rest t Hq|i rest t err Hf Hc
                  |i rest t err d t' Hf Hc Hi Hd Hl IH];
    intros idx ns sa err0 Hidx Hc0.
  - discriminate Hidx.
  - discriminate Hidx.
  - destruct Hq; destruct idx as [|[|idx]]; discriminate Hidx.
  - destruct Hf as [err Hnf|sa' Hne|sa' err Heq Hr];
      destruct idx as [|[|[|idx]]]; try discriminate Hidx.
    by injection Hidx as <- <- <-.
  - destruct Hf as [err Hnf|sa' Hne|sa' err Heq Hr].
    + destruct idx as [|[|idx]]; try discriminate Hidx.
      simpl in Hidx. simpl. by apply (IH idx ns sa).
    + discriminate Hc.
    + destruct idx as [|[|[|idx]]]; try discriminate Hidx.
      * injection Hidx as <- <- <-. congruence.
      * simpl in Hidx. simpl. by apply (IH idx ns sa).
Qed.

(** When every answer is contested, the turns below the ceiling are
    conflict rounds and the turn at the ceiling logs the conflict. *)
Lemma contested_loop (pre : list Z) :
  ∀ last t,
    turns (pre ++ [last]) t →
    Forall (contested s saUID) t →
    Forall (λ c, c < NumServiceAccountUpdateRetries) pre →
    NumServiceAccountUpdateRetries ≤ last →
    ∃ rounds final_sa,
      length rounds = length pre
      ∧ t = concat (conflictRound (nsOf s) saName (nameOf s) <$> rounds)
            ++ [EvGet (nsOf s) saName (inl final_sa);
                EvUpdate (nsOf s) (stripRefs (nameOf s) final_sa) (inr conflict);
                EvGlogError conflict].
Proof.
  induction pre as [|c pre IH]; intros last t Hl Hall Hpre Hlast.
  - simpl in Hl.
    inversion Hl as [|? ? Hb|? ? ? Hq|? ? ? err Hf Hc|? ? ? err d t' Hf Hc Hi];
      subst.
    + destruct Hb; contradiction.
    + exfalso. destruct Hq as [|sa Heq Hr|sa ok Heq Hr].
      * by apply Forall_cons in Hall as [? _].
      * apply Forall_cons in Hall as [[_ ?] _]. contradiction.
      * apply Forall_cons in Hall as [_ Hall].
        apply Forall_cons in Hall as [Hu _]. discriminate Hu.
    + destruct Hf as [err Hnf|sa Hne|sa err Heq Hr].
      * exfalso. by apply Forall_cons in Hall as [? _].
      * exfalso. apply Forall_cons in Hall as [[? _] _]. contradiction.
      * apply Forall_cons in Hall as [_ Hall].
        apply Forall_cons in Hall as [Hu _]. injection Hu as ->.
        by exists [], sa.
    + lia.
  - apply Forall_cons in Hpre as [Hc Hpre]. simpl in Hl.
    inversion Hl as [|? ? Hb|? ? ? Hq|? ? ? err Hf Hcond
                     |? ? ? err d t' Hf Hconf Hi Hd Hl'];
      subst.
    + destruct Hb; contradiction.
    + exfalso. destruct Hq as [|sa Heq Hr|sa ok Heq Hr].
      * by apply Forall_cons in Hall as [? _].
      * apply Forall_cons in Hall as [[_ ?] _]. contradiction.
      * apply Forall_cons in Hall as [_ Hall].
        apply Forall_cons in Hall as [Hu _]. discriminate Hu.
    + exfalso. destruct Hf as [err Hnf|sa Hne|sa err Heq Hr].
      * by apply Forall_cons in Hall as [? _].
      * apply Forall_cons in Hall as [[? _] _]. contradiction.
      * apply Forall_cons in Hall as [_ Hall].
        apply Forall_cons in Hall as [Hu _]. injection Hu as ->.
        simpl in Hcond. apply Z.ltb_ge in Hcond. lia.
    + destruct Hf as [err Hnf|sa Hne|sa err Heq Hr].
      * exfalso. by apply Forall_cons in Hall as [? _].
      * exfalso. apply Forall_cons in Hall as [[? _] _]. contradiction.
      * apply Forall_cons in Hall as [_ Hall].
        apply Forall_cons in Hall as [Hu Hall]. injection Hu as ->.
        apply Forall_cons in Hall as [_ Hall].
        destruct (IH last t' Hl' Hall Hpre Hlast)
          as (rounds & final_sa & Hlen & ->).
        exists ((sa, d) :: rounds), final_sa.
        split; [simpl; by rewrite Hlen|done].
Qed.

End Turns.

(** ** The handler under contention *)

Lemma counters_below_ceiling (k : nat) :
  (k < 10)%nat →
  Forall (λ c, c < NumServiceAccountUpdateRetries)
         (take k (seqZ 1 NumServiceAccountUpdateRetries)).
Proof.
  intros Hk.
  do 10 (destruct k as [|k]; [vm_compute; repeat constructor|]).
  lia.
Qed.

Section Contention.
Variables (ServiceAccountTokenSecretNameKey
           ServiceAccountNameKey
           ServiceAccountUIDKey : string).
Context {W : Type} (e : Env W).

Abbreviation serve :=
  (secretDeleted ServiceAccountTokenSecretNameKey ServiceAccountNameKey
                 ServiceAccountUIDKey e).
Abbreviation cname s := (backrefName ServiceAccountNameKey s).
Abbreviation cuid s := (backrefUID ServiceAccountUIDKey s).
Abbreviation ctok s := (tokenName ServiceAccountTokenSecretNameKey s).
Abbreviation cdel s w := (Secrets_Delete e (nsOf s) (ctok s) w).
Abbreviation drawn :=
  (λ d : Z, ∃ w' : W, d = (wait_Jitter e (100 * Millisecond) w').1).

(** For a managed secret with a usable back-reference the handler is the
    retry loop and the Delete of the token. *)
Lemma managed_shape (s : Secret) (w : W) :
  managed ServiceAccountTokenSecretNameKey s →
  cname s ≠ "" → cuid s ≠ "" →
  ∃ t w1,
    loopCalls s (cname s) (cuid s) drawn
      (seqZ 1 NumServiceAccountUpdateRetries) t
    ∧ serve (ObjSecret s) w
      = (Returned tt, (cdel s w1).2,
         t ++ EvDelete (nsOf s) (ctok s) (cdel s w1).1
           :: handled (cdel s w1).1).
Proof.
  intros Hm Hn Hu.
  destruct (handler_shape ServiceAccountTokenSecretNameKey
              ServiceAccountNameKey ServiceAccountUIDKey e s w)
    as [Hun|[[Hb _]|(_ & _ & _ & t & w1 & Hl & Hrun)]].
  - exfalso. rewrite deleted_unfold in Hun by done.
    destruct (forRange _ _ w) as [[[[]|msg] w1] t1]; [|discriminate Hun].
    injection Hun as _ Hc. by destruct t1.
  - destruct Hb; contradiction.
  - by exists t, w1.
Qed.

(** C4 (amended): for a managed secret with both back-reference
    annotations, when in the run every Get is answered with a service
    account that carries the recorded UID and still references the secret
    and every Update is answered with a conflict, the handler runs nine
    conflict rounds (Get, Update, sleep), then a tenth Get and Update, logs
    the conflict, issues the token Delete and returns: ten Gets, ten
    Updates, nine sleeps. *)
Theorem contested_run_exhausts_retries (s : Secret) (w : W) :
  managed ServiceAccountTokenSecretNameKey s →
  cname s ≠ "" → cuid s ≠ "" →
  Forall (contested s (cuid s)) (calls (serve (ObjSecret s) w)) →
  ∃ rounds last rd,
    length rounds = 9%nat
    ∧ outcome (serve (ObjSecret s) w) = Returned tt
    ∧ calls (serve (ObjSecret s) w)
      = concat (conflictRound (nsOf s) (cname s) (nameOf s) <$> rounds)
        ++ [EvGet (nsOf s) (cname s) (inl last);
            EvUpdate (nsOf s) (stripRefs (nameOf s) last) (inr conflict);
            EvGlogError conflict;
            EvDelete (nsOf s) (ctok s) rd]
        ++ handled rd
    ∧ countCalls isUpdate (calls (serve (ObjSecret s) w)) = 10%nat
    ∧ countCalls isGet (calls (serve (ObjSecret s) w)) = 10%nat
    ∧ countCalls isSleep (calls (serve (ObjSecret s) w)) = 9%nat.
Proof.
  intros Hm Hn Hu.
  destruct (managed_shape s w Hm Hn Hu) as (t & w1 & Hl & ->).
  unfold outcome, calls. cbn [fst snd]. intros Hall.
  apply Forall_app in Hall as [Hall _].
  change (seqZ 1 NumServiceAccountUpdateRetries)
    with ([1; 2; 3; 4; 5; 6; 7; 8; 9] ++ [10]) in Hl.
  destruct (contested_loop s (cname s) (cuid s) _ Hn Hu
              [1; 2; 3; 4; 5; 6; 7; 8; 9] 10 t Hl Hall)
    as (rounds & last & Hlen & ->).
  { unfold NumServiceAccountUpdateRetries. repeat constructor. }
  { done. }
  exists rounds, last, (cdel s w1).1.
  destruct (handled_counts (cdel s w1).1) as (Hg & Hup & Hs & _).
  split; [done|]. split; [done|]. split; [by rewrite <- app_assoc|].
  count_calls.
  rewrite !(countCalls_rounds _ _ _ _ _ 1) by done.
  rewrite Hg, Hup, Hs, Hlen. done.
Qed.

(** C6 (amended): for a managed secret with both back-reference
    annotations the handler returns normally; a Get answered with
    not-found, at whichever attempt, is followed at once by the token
    Delete and nothing is logged in that run; a token Delete answered with
    not-found hands nothing to HandleError; but an Update answered with
    not-found is logged with glog.Error right away. *)
Theorem not_found_of_get_and_delete_is_success (s : Secret) (w : W) :
  managed ServiceAccountTokenSecretNameKey s →
  cname s ≠ "" → cuid s ≠ "" →
  outcome (serve (ObjSecret s) w) = Returned tt
  ∧ (∀ i,
        calls (serve (ObjSecret s) w) !! i
        = Some (EvGet (nsOf s) (cname s) (inr notFound)) →
        (∃ rd, calls (serve (ObjSecret s) w) !! S i
               = Some (EvDelete (nsOf s) (ctok s) rd))
        ∧ ∀ err, EvGlogError err ∉ calls (serve (ObjSecret s) w))
  ∧ (EvDelete (nsOf s) (ctok s) (Some notFound)
       ∈ calls (serve (ObjSecret s) w) →
     ∀ err, EvHandleError err ∉ calls (serve (ObjSecret s) w))
  ∧ (∀ i ns sa,
        calls (serve (ObjSecret s) w) !! i
        = Some (EvUpdate ns sa (inr notFound)) →
        calls (serve (ObjSecret s) w) !! S i = Some (EvGlogError notFound)).
Proof.
  intros Hm Hn Hu.
  destruct (managed_shape s w Hm Hn Hu) as (t & w1 & Hl & ->).
  unfold outcome, calls. cbn [fst snd].
  destruct (loop_counts _ _ _ _ _ _ Hl) as (_ & _ & _ & _ & Hd & Hh).
  apply countCalls_zero in Hd, Hh. rewrite Forall_forall in Hd, Hh.
  split; [done|]. split; [|split].
  - intros i Hi. rewrite lookup_app in Hi.
    destruct (t !! i) as [ev|] eqn:Hti.
    + injection Hi as ->.
      pose proof (loop_ends _ _ _ _ _ _ Hl i _ Hti eq_refl) as Hlast.
      split.
      * exists (cdel s w1).1. rewrite Hlast. by rewrite list_lookup_middle.
      * intros err Herr.
        pose proof (loop_silent _ _ _ _ _ _ Hl _
                      (list_elem_of_lookup_2 _ _ _ Hti) eq_refl eq_refl) as Hz.
        apply countCalls_zero in Hz. rewrite Forall_forall in Hz.
        rewrite elem_of_app, elem_of_cons in Herr.
        destruct Herr as [Herr|[Herr|Herr]].
        -- apply Hz in Herr. discriminate Herr.
        -- discriminate Herr.
        -- apply handled_only_reports in Herr as (err' & Herr & _).
           discriminate Herr.
    + destruct (i - length t)%nat as [|k]; [discriminate Hi|].
      simpl in Hi. apply list_elem_of_lookup_2 in Hi.
      apply handled_only_reports in Hi as (err & Hi & _). discriminate Hi.
  - intros Hin err Herr.
    rewrite elem_of_app, elem_of_cons in Hin, Herr.
    destruct Hin as [Hin|[Hin|Hin]].
    + apply Hd in Hin. discriminate Hin.
    + injection Hin as Hrd.
      destruct Herr as [Herr|[Herr|Herr]].
      * apply Hh in Herr. discriminate Herr.
      * discriminate Herr.
      * rewrite <- Hrd in Herr. simpl in Herr. by apply elem_of_nil in Herr.
    + apply handled_only_reports in Hin as (err' & Hin & _). discriminate Hin.
  - intros i ns sa Hi. rewrite lookup_app in Hi.
    destruct (t !! i) as [ev|] eqn:Hti.
    + injection Hi as ->.
      apply lookup_app_l_Some.
      by apply (loop_update_failure _ _ _ _ _ _ Hl i ns sa notFound).
    + destruct (i - length t)%nat as [|k]; [discriminate Hi|].
      simpl in Hi. apply list_elem_of_lookup_2 in Hi.
      apply handled_only_reports in Hi as (err & Hi & _). discriminate Hi.
Qed.


(** C9: in the calls of the handler every Update comes right after a Get
    of the recorded service account and writes the account that this very
    Get returned, with the references to the deleted secret taken out; and
    an Update that loses to a conflict, unless it belongs to the tenth
    attempt, is followed by a sleep and then by a new Get of the recorded
    service account, on whose answer alone any further Update rests. *)
Theorem conflict_restarts_read_modify_write (s : Secret) (w : W)
    (i : nat) (ns' : string) (sa' : ServiceAccount)
    (ru : ServiceAccount + error) :
  calls (serve (ObjSecret s) w) !! i = Some (EvUpdate ns' sa' ru) →
  (∃ j sa,
      i = S j
      ∧ calls (serve (ObjSecret s) w) !! j
        = Some (EvGet (nsOf s) (cname s) (inl sa))
      ∧ ns' = nsOf s
      ∧ sa' = stripRefs (nameOf s) sa
      ∧ UID (SA_Meta sa) = cuid s)
  ∧ (∀ err,
        ru = inr err →
        IsConflict (Some err) = true →
        (countCalls isGet (take i (calls (serve (ObjSecret s) w))) < 10)%nat →
        ∃ d r,
          calls (serve (ObjSecret s) w) !! S i = Some (EvSleep d)
          ∧ calls (serve (ObjSecret s) w) !! S (S i)
            = Some (EvGet (nsOf s) (cname s) r)).
Proof.
  intros Hi. split.
  { by apply (update_follows_fresh_get ServiceAccountTokenSecretNameKey
                ServiceAccountNameKey ServiceAccountUIDKey e s w i ns' sa' ru). }
  intros err -> Hc Hk.
  destruct (handler_shape ServiceAccountTokenSecretNameKey
              ServiceAccountNameKey ServiceAccountUIDKey e s w)
    as [Hrun|[[_ Hrun]|(_ & Hn & Hu & t & w1 & Hl & Hrun)]];
    rewrite Hrun in Hi, Hk |- *; unfold calls in Hi, Hk |- *;
    cbn [snd] in Hi, Hk |- *; [discriminate Hi..|].
  rewrite lookup_app in Hi.
  destruct (t !! i) as [ev|] eqn:Hti.
  - injection Hi as ->.
    assert (Hlt : (i < length t)%nat) by (by eapply lookup_lt_Some).
    rewrite take_app_le in Hk by lia.
    destruct (loop_restarts s (cname s) (cuid s) _ Hn Hu _ _ Hl
                i ns' sa' err Hti Hc) as (d & r & H1 & H2).
    + by apply counters_below_ceiling.
    + exact Hk.
    + exists d, r. split; by apply lookup_app_l_Some.
  - destruct (i - length t)%nat as [|k]; [discriminate Hi|].
    simpl in Hi. apply list_elem_of_lookup_2 in Hi.
    apply handled_only_reports in Hi as (err' & Hi & _). discriminate Hi.
Qed.

End Contention.

(** ** Contention at the scenarios *)

Lemma contested_run_exhausts_retries_witness :
  Forall (contested d1 "u1") (calls (run contended (ObjSecret d1) store))
  ∧ ∃ rounds last rd,
      length rounds = 9%nat
      ∧ outcome (run contended (ObjSecret d1) store) = Returned tt
      ∧ calls (run contended (ObjSecret d1) store)
        = concat (conflictRound "ns" "sa1" "d1" <$> rounds)
          ++ [EvGet "ns" "sa1" (inl last);
              EvUpdate "ns" (stripRefs "d1" last) (inr conflict);
              EvGlogError conflict;
              EvDelete "ns" "tok1" rd]
          ++ handled rd
      ∧ countCalls isUpdate (calls (run contended (ObjSecret d1) store)) = 10%nat
      ∧ countCalls isGet (calls (run contended (ObjSecret d1) store)) = 10%nat
      ∧ countCalls isSleep (calls (run contended (ObjSecret d1) store)) = 9%nat.
Proof.
  assert (Hall : Forall (contested d1 "u1")
                   (calls (run contended (ObjSecret d1) store))).
  { apply (bool_decide_unpack _). vm_compute. exact I. }
  split; [exact Hall|].
  apply (contested_run_exhausts_retries tokenKey nameKey uidKey contended
           d1 store).
  - present.
  - nonempty.
  - nonempty.
  - exact Hall.
Defined.

Lemma not_found_of_get_and_delete_is_success_witness :
  outcome (run env (ObjSecret d1) emptied) = Returned tt
  ∧ calls (run env (ObjSecret d1) emptied) !! 0%nat
    = Some (EvGet "ns" "sa1" (inr notFound))
  ∧ (∃ rd, calls (run env (ObjSecret d1) emptied) !! 1%nat
           = Some (EvDelete "ns" "tok1" rd))
  ∧ (∀ err, EvGlogError err ∉ calls (run env (ObjSecret d1) emptied))
  ∧ (∀ err, EvHandleError err ∉ calls (run env (ObjSecret d1) emptied)).
Proof.
  assert (Hm : managed tokenKey d1) by present.
  assert (Hn : backrefName nameKey d1 ≠ "") by nonempty.
  assert (Hu : backrefUID uidKey d1 ≠ "") by nonempty.
  destruct (not_found_of_get_and_delete_is_success tokenKey nameKey uidKey
              env d1 emptied Hm Hn Hu) as (Ho & Hget & Hdel & _).
  assert (H0 : calls (run env (ObjSecret d1) emptied) !! 0%nat
               = Some (EvGet "ns" "sa1" (inr notFound)))
    by (vm_compute; reflexivity).
  destruct (Hget 0%nat H0) as [Hnext Hquiet].
  split; [exact Ho|]. split; [exact H0|]. split; [exact Hnext|].
  split; [exact Hquiet|].
  apply Hdel. apply (list_elem_of_lookup_2 _ 1%nat). vm_compute. reflexivity.
Defined.


Lemma conflict_restarts_read_modify_write_witness :
  ∃ sa' d r,
    calls (run contended (ObjSecret d1) store) !! 1%nat
    = Some (EvUpdate "ns" sa' (inr conflict))
    ∧ (countCalls isGet (take 1 (calls (run contended (ObjSecret d1) store)))
       < 10)%nat
    ∧ calls (run contended (ObjSecret d1) store) !! 2%nat = Some (EvSleep d)
    ∧ calls (run contended (ObjSecret d1) store) !! 3%nat
      = Some (EvGet "ns" "sa1" r).
Proof.
  assert (H1 : calls (run contended (ObjSecret d1) store) !! 1%nat
               = Some (EvUpdate "ns" (stripRefs "d1" (load "ns" "sa1" (sa1 "u1")))
                         (inr conflict)))
    by (vm_compute; reflexivity).
  assert (Hk : (countCalls isGet
                  (take 1 (calls (run contended (ObjSecret d1) store)))
                < 10)%nat)
    by (vm_compute; lia).
  destruct (conflict_restarts_read_modify_write tokenKey nameKey uidKey
              contended d1 store 1%nat _ _ _ H1) as [_ Hnext].
  destruct (Hnext conflict eq_refl eq_refl Hk) as (d & r & H2 & H3).
  exists (stripRefs "d1" (load "ns" "sa1" (sa1 "u1"))), d, r.
  split; [exact H1|]. split; [exact Hk|]. split; [exact H2|exact H3].
Defined.

(** ** Where the specification and the code part, continued *)

(** C4 (as stated) fails: the account is there for the first Get and gone
    for the second, every Update there is loses to a conflict, and yet the
    handler makes one Update, not ten, and logs nothing. *)
Lemma vanished_account_ends_retries :
  calls (secretDeleted tokenKey nameKey uidKey Faults.vanishing
           (ObjSecret d1) 0%nat)
  = [EvGet "ns" "sa1" (inl Faults.account);
     EvUpdate "ns" (stripRefs "d1" Faults.account) (inr conflict);
     EvSleep (100 * Millisecond);
     EvGet "ns" "sa1" (inr notFound);
     EvDelete "ns" "tok1" None]
  ∧ ¬ ((∀ ns sa r,
           EvUpdate ns sa r
             ∈ calls (secretDeleted tokenKey nameKey uidKey Faults.vanishing
                        (ObjSecret d1) 0%nat) →
           r = inr conflict) →
       countCalls isUpdate
         (calls (secretDeleted tokenKey nameKey uidKey Faults.vanishing
                   (ObjSecret d1) 0%nat)) = 10%nat
       ∧ EvGlogError conflict
           ∈ calls (secretDeleted tokenKey nameKey uidKey Faults.vanishing
                      (ObjSecret d1) 0%nat)).
Proof.
  assert (Hcalls :
    calls (secretDeleted tokenKey nameKey uidKey Faults.vanishing
             (ObjSecret d1) 0%nat)
    = [EvGet "ns" "sa1" (inl Faults.account);
       EvUpdate "ns" (stripRefs "d1" Faults.account) (inr conflict);
       EvSleep (100 * Millisecond);
       EvGet "ns" "sa1" (inr notFound);
       EvDelete "ns" "tok1" None])
    by (vm_compute; reflexivity).
  split; [exact Hcalls|].
  rewrite Hcalls. intros H.
  destruct H as [Hten _].
  - intros ns sa r Hin. in_calls Hin.
    decompose [or] Hin; try done. congruence.
  - discriminate Hten.
Qed.

(** C6 (as stated) fails: the account is fetched, the Update of it is
    answered with not-found, and the handler reports that as an error. *)
Lemma update_not_found_is_reported :
  EvUpdate "ns" (stripRefs "d1" Faults.account) (inr notFound)
    ∈ calls (secretDeleted tokenKey nameKey uidKey
               (Faults.canned (inl Faults.account) (inr notFound) None)
               (ObjSecret d1) 0%nat)
  ∧ ¬ (∀ ev,
          ev ∈ calls (secretDeleted tokenKey nameKey uidKey
                        (Faults.canned (inl Faults.account) (inr notFound) None)
                        (ObjSecret d1) 0%nat) →
          isReport ev = false).
Proof.
  assert (Hcalls :
    calls (secretDeleted tokenKey nameKey uidKey
             (Faults.canned (inl Faults.account) (inr notFound) None)
             (ObjSecret d1) 0%nat)
    = [EvGet "ns" "sa1" (inl Faults.account);
       EvUpdate "ns" (stripRefs "d1" Faults.account) (inr notFound);
       EvGlogError notFound;
       EvDelete "ns" "tok1" None])
    by (vm_compute; reflexivity).
  rewrite Hcalls. split.
  - apply list_elem_of_further, list_elem_of_here.
  - intros H. specialize (H (EvGlogError notFound)).
    assert (Hr : isReport (EvGlogError notFound) = false).
    { apply H. do 2 apply list_elem_of_further. apply list_elem_of_here. }
    discriminate Hr.
Qed.
